(** * workos-go, package [auditlog]: a shallow embedding and its properties

    The development follows [pkg/auditlog/auditlog.go]: the metadata
    operations [merge] and [validate], the defaulting helpers
    [defaultTime] and [defaultIdempotencyKey], and the table of
    [auditlog/api_test.go] for the list-request limit.

    Layout: first the fragments of the Go runtime and of the libraries the
    package calls ([utf8], [strconv], [fmt], [hex], [uuid], [time]), then
    the package itself over an explicit world (heap of map objects, wall
    clock, entropy source, map-iteration seeds), then the properties. *)

From Stdlib Require Import ZArith Ascii String DecimalString DecimalZ DecimalPos Lia.
From stdpp Require Import base option list gmap strings.

Local Open Scope string_scope.
Local Open Scope Z_scope.

(** ** Bytes and strings

    A Go [string] is a sequence of bytes; so is a Rocq [string], whose
    characters are the 8-bit [ascii].  [len] is Go's builtin on strings:
    the number of bytes. *)

Definition byteZ (b : ascii) : Z := Z.of_N (N_of_ascii b).

Definition Zbyte (z : Z) : ascii := ascii_of_N (Z.to_N (z mod 256)).

Definition len (s : string) : Z := Z.of_nat (String.length s).

(** The double quote, written by its code so that no literal needs it. *)
Definition dquote : ascii := "034"%char.

Definition backslash : ascii := "092"%char.

(** ** Errors

    The values of Go's [error] the package produces: its own
    [errTooMuchMetadataKeys] (one value, made once by [errors.New]) and
    the values [errors.New] and [fmt.Errorf] make, each an [errorString]
    holding its message.  [Error] is the interface's method. *)

Inductive error : Type :=
  | errTooMuchMetadataKeys
  | errorString (s : string).

Definition Error (e : error) : string :=
  match e with
  | errTooMuchMetadataKeys => "too much metadata key"
  | errorString s => s
  end.

(** ** Package [unicode/utf8] (the part [strconv.Quote] relies on) *)

Module utf8.

Definition RuneError : Z := 0xFFFD.
Definition RuneSelf : Z := 0x80.
Definition MaxRune : Z := 0x10FFFF.
Definition surrogateMin : Z := 0xD800.
Definition surrogateMax : Z := 0xDFFF.

Definition maskx : Z := 0x3F.
Definition mask2 : Z := 0x1F.
Definition mask3 : Z := 0x0F.
Definition mask4 : Z := 0x07.

Definition locb : Z := 0x80.
Definition hicb : Z := 0xBF.

(** What the table [first] says of a leading byte: plain ASCII, never a
    leading byte, or the leader of [size] bytes whose second byte must lie
    in [lo..hi]. *)
Inductive firstInfo : Type :=
  | fiASCII
  | fiInvalid
  | fiLead (size : nat) (lo hi : Z).

Definition first (s0 : Z) : firstInfo :=
  if s0 <? 0x80 then fiASCII
  else if s0 <? 0xC2 then fiInvalid
  else if s0 <? 0xE0 then fiLead 2 locb hicb
  else if s0 =? 0xE0 then fiLead 3 0xA0 hicb
  else if s0 <? 0xED then fiLead 3 locb hicb
  else if s0 =? 0xED then fiLead 3 locb 0x9F
  else if s0 <? 0xF0 then fiLead 3 locb hicb
  else if s0 =? 0xF0 then fiLead 4 0x90 hicb
  else if s0 <? 0xF4 then fiLead 4 locb hicb
  else if s0 =? 0xF4 then fiLead 4 locb 0x8F
  else fiInvalid.

(** [DecodeRuneInString s] is the first rune of [s] and its width in
    bytes; an invalid encoding decodes as [(RuneError, 1)], the empty
    string as [(RuneError, 0)]. *)
Definition DecodeRuneInString (s : string) : Z * nat :=
  match s with
  | EmptyString => (RuneError, 0%nat)
  | String c0 t0 =>
    let s0 := byteZ c0 in
    match first s0 with
    | fiASCII => (s0, 1%nat)
    | fiInvalid => (RuneError, 1%nat)
    | fiLead sz lo hi =>
      if (String.length s <? sz)%nat then (RuneError, 1%nat) else
      match t0 with
      | EmptyString => (RuneError, 1%nat)
      | String c1 t1 =>
        let s1 := byteZ c1 in
        if (s1 <? lo) || (hi <? s1) then (RuneError, 1%nat) else
        if (sz <=? 2)%nat then
          (Z.lor (Z.shiftl (Z.land s0 mask2) 6) (Z.land s1 maskx), 2%nat)
        else
        match t1 with
        | EmptyString => (RuneError, 1%nat)
        | String c2 t2 =>
          let s2 := byteZ c2 in
          if (s2 <? locb) || (hicb <? s2) then (RuneError, 1%nat) else
          if (sz <=? 3)%nat then
            (Z.lor (Z.lor (Z.shiftl (Z.land s0 mask3) 12)
                          (Z.shiftl (Z.land s1 maskx) 6))
                   (Z.land s2 maskx), 3%nat)
          else
          match t2 with
          | EmptyString => (RuneError, 1%nat)
          | String c3 _ =>
            let s3 := byteZ c3 in
            if (s3 <? locb) || (hicb <? s3) then (RuneError, 1%nat) else
            (Z.lor (Z.lor (Z.lor (Z.shiftl (Z.land s0 mask4) 18)
                                 (Z.shiftl (Z.land s1 maskx) 12))
                          (Z.shiftl (Z.land s2 maskx) 6))
                   (Z.land s3 maskx), 4%nat)
          end
        end
      end
    end
  end.

Definition ValidRune (r : Z) : bool :=
  ((0 <=? r) && (r <? surrogateMin)) || ((surrogateMax <? r) && (r <=? MaxRune)).

(** [AppendRune] : the UTF-8 encoding of a rune. *)
Definition AppendRune (r : Z) : string :=
  if (0 <=? r) && (r <=? 0x7F) then String (Zbyte r) ""
  else if (0 <=? r) && (r <=? 0x7FF) then
    String (Zbyte (Z.lor 0xC0 (Z.shiftr r 6)))
   (String (Zbyte (Z.lor 0x80 (Z.land r maskx))) "")
  else
    let r := if ValidRune r then r else RuneError in
    if r <=? 0xFFFF then
      String (Zbyte (Z.lor 0xE0 (Z.shiftr r 12)))
     (String (Zbyte (Z.lor 0x80 (Z.land (Z.shiftr r 6) maskx)))
     (String (Zbyte (Z.lor 0x80 (Z.land r maskx))) ""))
    else
      String (Zbyte (Z.lor 0xF0 (Z.shiftr r 18)))
     (String (Zbyte (Z.lor 0x80 (Z.land (Z.shiftr r 12) maskx)))
     (String (Zbyte (Z.lor 0x80 (Z.land (Z.shiftr r 6) maskx)))
     (String (Zbyte (Z.lor 0x80 (Z.land r maskx))) ""))).

(** [RuneCountInString]: the number of runes of [s], an invalid byte
    counting for one.  [skip] is the number of bytes of the current rune
    still to pass over. *)
Fixpoint runeCountFrom (s : string) (skip : nat) : Z :=
  match s with
  | EmptyString => 0
  | String _ t =>
    match skip with
    | S n => runeCountFrom t n
    | O => 1 + runeCountFrom t (snd (DecodeRuneInString s) - 1)
    end
  end.

Definition RuneCountInString (s : string) : Z := runeCountFrom s 0.

End utf8.

(** ** Package [strconv]: [Quote] and [FormatInt]

    [Quote] needs [IsPrint], which for runes above Latin-1 searches
    Unicode tables that are data of the Go distribution.  They are taken
    as the parameter [unicodePrint]; everything below Latin-1 is written
    out as [IsPrint] decides it. *)

Module strconv.

Definition lowerhex : string := "0123456789abcdef".

Definition hexdigit (i : Z) : ascii :=
  default "0"%char (String.get (Z.to_nat i) lowerhex).

Definition FormatInt (i : Z) : string := NilZero.string_of_int (Z.to_int i).

Section Quote.
Variable unicodePrint : Z -> bool.

Definition IsPrint (r : Z) : bool :=
  if r <=? 0xFF then
    if (0x20 <=? r) && (r <=? 0x7E) then true
    else if (0xA1 <=? r) && (r <=? 0xFF) then negb (r =? 0xAD)
    else false
  else unicodePrint r.

(** [hexrun r s]: the hexadecimal digits of [r] taken four bits at a time
    from shift [4 * n - 4] down to shift [0]. *)
Fixpoint hexrun (r : Z) (n : nat) : string :=
  match n with
  | O => ""
  | S n' => String (hexdigit (Z.land (Z.shiftr r (4 * Z.of_nat n')) 0xF)) (hexrun r n')
  end.

(** [appendEscapedRune] with [quote] the double quote and neither
    [ASCIIonly] nor [graphicOnly], as [Quote] calls it: the bytes it
    appends for the rune [r]. *)
Definition appendEscapedRune (r : Z) : string :=
  if (r =? byteZ dquote) || (r =? byteZ backslash) then
    String backslash (String (Zbyte r) "")
  else if IsPrint r then utf8.AppendRune r
  else if r =? 7 then "\a"
  else if r =? 8 then "\b"
  else if r =? 12 then "\f"
  else if r =? 10 then "\n"
  else if r =? 13 then "\r"
  else if r =? 9 then "\t"
  else if r =? 11 then "\v"
  else if (r <? 0x20) || (r =? 0x7F) then
    "\x" ++ String (hexdigit (Z.shiftr (byteZ (Zbyte r)) 4))
           (String (hexdigit (Z.land (byteZ (Zbyte r)) 0xF)) "")
  else if negb (utf8.ValidRune r) then "\u" ++ hexrun 0xFFFD 4
  else if r <? 0x10000 then "\u" ++ hexrun r 4
  else "\U" ++ hexrun r 8.

(** The loop of [appendQuotedWith] over the string, one rune per turn.
    [skip] counts the bytes of the rune just handled that remain to be
    passed over (the loop's [s = s[width:]]). *)
Fixpoint quoteFrom (s : string) (skip : nat) : string :=
  match s with
  | EmptyString => ""
  | String c t =>
    match skip with
    | S n => quoteFrom t n
    | O =>
      let '(r, width) :=
        if byteZ c >=? utf8.RuneSelf then utf8.DecodeRuneInString s
        else (byteZ c, 1%nat) in
      (if (width =? 1)%nat && (r =? utf8.RuneError) then
         "\x" ++ String (hexdigit (Z.shiftr (byteZ c) 4))
                (String (hexdigit (Z.land (byteZ c) 0xF)) "")
       else appendEscapedRune r)
      ++ quoteFrom t (width - 1)
    end
  end.

Definition Quote (s : string) : string :=
  String dquote (quoteFrom s 0 ++ String dquote "").

End Quote.

End strconv.

(** ** Package [fmt]: [Errorf] for the verbs the package uses

    Plain verbs only (no flags, width or precision): [%q] of a string,
    [%d] of an integer, and [%%]. *)

Module fmt.

Inductive arg : Type :=
  | Str (s : string)
  | Int (i : Z).

Section Printf.
Variable unicodePrint : Z -> bool.

Definition verb (c : ascii) (a : arg) : string :=
  match a with
  | Str s =>
    if Ascii.eqb c "q" then strconv.Quote unicodePrint s
    else "%!" ++ String c "(string=" ++ s ++ ")"
  | Int i =>
    if Ascii.eqb c "d" then strconv.FormatInt i
    else "%!" ++ String c "(int=" ++ strconv.FormatInt i ++ ")"
  end.

Fixpoint Sprintf (format : string) (args : list arg) : string :=
  match format with
  | EmptyString => ""
  | String c rest =>
    if Ascii.eqb c "%" then
      match rest with
      | EmptyString => "%!(NOVERB)"
      | String v rest' =>
        if Ascii.eqb v "%" then String "%" (Sprintf rest' args)
        else
          match args with
          | a :: args' => verb v a ++ Sprintf rest' args'
          | [] => "%!" ++ String v "(MISSING)" ++ Sprintf rest' []
          end
      end
    else String c (Sprintf rest args)
  end.

Definition Errorf (format : string) (args : list arg) : error :=
  errorString (Sprintf format args).

End Printf.

End fmt.

(** ** Package [encoding/hex] *)

Module hex.

Definition hextable : string := "0123456789abcdef".

Definition digit (i : Z) : ascii :=
  default "0"%char (String.get (Z.to_nat i) hextable).

Fixpoint Encode (src : list ascii) : string :=
  match src with
  | [] => ""
  | v :: rest =>
    String (digit (Z.shiftr (byteZ v) 4))
   (String (digit (Z.land (byteZ v) 0x0f)) (Encode rest))
  end.

End hex.

(** ** Package [io]: [ReadFull] on a finite supply of bytes

    The reader is the list of bytes it will still deliver.  [ReadFull n]
    takes the first [n] of them; when fewer are left it fails with [EOF]
    (nothing was read) or [ErrUnexpectedEOF]. *)

Module io.

Definition EOF : error := errorString "EOF".
Definition ErrUnexpectedEOF : error := errorString "unexpected EOF".

Definition ReadFull (n : nat) (r : list ascii) : (error + list ascii) * list ascii :=
  if (n <=? length r)%nat then (inr (take n r), drop n r)
  else (inl (match r with [] => EOF | _ => ErrUnexpectedEOF end), []).

End io.

(** ** Package [github.com/google/uuid]: [NewRandom] and [String] *)

Module uuid.

(** [type UUID [16]byte] *)
Definition UUID : Type := list ascii.

Definition NewRandomFromReader (r : list ascii) : (error + UUID) * list ascii :=
  match io.ReadFull 16 r with
  | (inr u, r') =>
    let u := alter (fun b => Zbyte (Z.lor (Z.land (byteZ b) 0x0f) 0x40)) 6%nat u in
    let u := alter (fun b => Zbyte (Z.lor (Z.land (byteZ b) 0x3f) 0x80)) 8%nat u in
    (inr u, r')
  | (inl err, r') => (inl err, r')
  end.

Definition encodeHex (u : UUID) : string :=
  hex.Encode (take 4 u) ++ "-" ++
  hex.Encode (take 2 (drop 4 u)) ++ "-" ++
  hex.Encode (take 2 (drop 6 u)) ++ "-" ++
  hex.Encode (take 2 (drop 8 u)) ++ "-" ++
  hex.Encode (drop 10 u).

Definition String (u : UUID) : string := encodeHex u.

End uuid.

(** ** Package [time]: the [Time] struct, its zero value and [UTC] *)

Module time.

(** A [*Location] is known by its address; [nil] means UTC. *)
Definition Location : Type := positive.

Definition utcLoc : Location := 1%positive.
Definition localLoc : Location := 2%positive.

Record Time : Type := mkTime {
  wall : Z;
  ext : Z;
  loc : option Location
}.

#[global] Instance Time_eq_dec : EqDecision Time.
Proof. solve_decision. Defined.

(** [time.Time{}] *)
Definition zero : Time := mkTime 0 0 None.

Definition hasMonotonic : Z := Z.shiftl 1 63.
Definition nsecMask : Z := Z.shiftl 1 30 - 1.
Definition nsecShift : Z := 30.
Definition secondsPerDay : Z := 86400.
Definition wallToInternal : Z :=
  (1884 * 365 + 1884 / 4 - 1884 / 100 + 1884 / 400) * secondsPerDay.

Definition sec (t : Time) : Z :=
  if negb (Z.land (wall t) hasMonotonic =? 0) then
    wallToInternal +
    Z.shiftr (Z.shiftl (wall t) 1 mod 2 ^ 64) (nsecShift + 1)
  else ext t.

Definition stripMono (t : Time) : Time :=
  if negb (Z.land (wall t) hasMonotonic =? 0) then
    mkTime (Z.land (wall t) nsecMask) (sec t) (loc t)
  else t.

Definition setLoc (t : Time) (l : option Location) : Time :=
  let l := if decide (l = Some utcLoc) then None else l in
  let t := stripMono t in
  mkTime (wall t) (ext t) l.

Definition UTC (t : Time) : Time := setLoc t (Some utcLoc).

(** [IsZero]: the instant is January 1, year 1, 00:00:00 UTC, whatever
    the location. *)
Definition nsec (t : Time) : Z := Z.land (wall t) nsecMask.

Definition IsZero (t : Time) : bool := (sec t =? 0) && (nsec t =? 0).

End time.

(** ** The Go runtime the package runs on *)

(** A call returns a value or panics. *)
Inductive result (A : Type) : Type :=
  | Done (a : A)
  | Panic (msg : string).

Arguments Done {A} a.
Arguments Panic {A} msg.

(** A map value is [nil] or the address of a map object. *)
Definition ref : Type := positive.

(** The order in which a [range] statement visits the entries of a map
    is the runtime's choice and may differ from one loop to the next.
    [rangeOrder seed l] is the order chosen under [seed]: each index of
    the seed names the entry, among those not yet visited, to visit
    next; when the seed is used up the rest follows as listed. *)
Fixpoint rangeOrder {A : Type} (seed : list nat) (l : list A) : list A :=
  match seed with
  | [] => l
  | i :: seed' =>
    match l !! i with
    | Some x => x :: rangeOrder seed' (delete i l)
    | None => l
    end
  end.

(** ** Package [auditlog]: types *)

(** [type Metadata map[string]interface{}]: [None] is the [nil] map. *)
Definition Metadata : Type := option ref.

(** [type ActionType string] and its constants *)
Definition ActionType : Type := string.

Definition Create : ActionType := "C".
Definition Read : ActionType := "R".
Definition Update : ActionType := "U".
Definition Delete : ActionType := "D".

Module Event.

Record Event : Type := mk {
  Action : string;
  ActionType : ActionType;
  ActorName : string;
  ActorID : string;
  Group : string;
  IdempotencyKey : string;
  Location : string;
  Metadata : Metadata;
  OccurredAt : time.Time;
  TargetName : string;
  TargetID : string
}.

End Event.

Abbreviation Event := Event.Event.

Section auditlog.

(** The values a metadata map holds ([interface{}]). *)
Context {V : Type}.

(** [strconv.IsPrint] above Latin-1. *)
Variable unicodePrint : Z -> bool.

(** *** The world: map objects, clock, entropy, iteration seeds *)

Record World : Type := mkWorld {
  heap : gmap ref (gmap string V);
  clock : time.Time;
  entropy : list ascii;
  seeds : list (list nat)
}.

Definition set_heap (h : gmap ref (gmap string V)) (w : World) : World :=
  mkWorld h (clock w) (entropy w) (seeds w).

Definition set_entropy (r : list ascii) (w : World) : World :=
  mkWorld (heap w) (clock w) r (seeds w).

Definition set_seeds (s : list (list nat)) (w : World) : World :=
  mkWorld (heap w) (clock w) (entropy w) s.

(** A Go computation: it runs in a world, ends in a value or a panic,
    and leaves a world. *)
Definition Go (A : Type) : Type := World -> result A * World.

Definition ret {A : Type} (a : A) : Go A := fun w => (Done a, w).

Definition bind {A B : Type} (c : Go A) (k : A -> Go B) : Go B :=
  fun w =>
    match c w with
    | (Done a, w') => k a w'
    | (Panic msg, w') => (Panic msg, w')
    end.

Notation "x <- c ;; k" := (bind c (fun x => k))
  (at level 100, c at next level, right associativity).
Notation "c ;;; k" := (bind c (fun _ => k))
  (at level 100, right associativity).

(** What a map value holds: nothing when [nil].  Every address stands
    for a map object; one the heap does not list holds no entry. *)
Definition contents (w : World) (m : Metadata) : gmap string V :=
  match m with
  | None => ∅
  | Some l => heap w !!! l
  end.

(** [len(m)] *)
Definition maplen (m : Metadata) : Go Z :=
  fun w => (Done (Z.of_nat (size (contents w m))), w).

(** [v, ok := m[k]]: [Some v] when [ok]. *)
Definition mapaccess2 (m : Metadata) (k : string) : Go (option V) :=
  fun w => (Done (contents w m !! k), w).

(** [m[k] = v] *)
Definition mapassign (m : Metadata) (k : string) (v : V) : Go unit :=
  fun w =>
    match m with
    | None => (Panic "assignment to entry in nil map", w)
    | Some l => (Done tt, set_heap (<[l := <[k := v]> (heap w !!! l)]> (heap w)) w)
    end.

(** The entries a [range] over [m] visits, in the order of the next
    seed. *)
Definition maprange (m : Metadata) : Go (list (string * V)) :=
  fun w =>
    (Done (rangeOrder (hd [] (seeds w)) (map_to_list (contents w m))),
     set_seeds (tl (seeds w)) w).

(** [time.Now()] *)
Definition Now : Go time.Time := fun w => (Done (clock w), w).

(** [uuid.New()]: [Must(NewRandom())], reading the world's entropy. *)
Definition New : Go uuid.UUID :=
  fun w =>
    match uuid.NewRandomFromReader (entropy w) with
    | (inr u, r) => (Done u, set_entropy r w)
    | (inl err, r) => (Panic (Error err), set_entropy r w)
    end.

(** *** [func (m Metadata) merge(other Metadata)]

    The loop ranges over the entries [other] holds when it starts.  Only
    [m] is assigned to, so the entries of [other] change under the loop
    only if [m] and [other] are one map, and then every key visited is
    found in [m] and nothing is assigned. *)

Fixpoint merge_loop (m : Metadata) (kvs : list (string * V)) : Go unit :=
  match kvs with
  | [] => ret tt
  | (k, v) :: rest =>
    found <- mapaccess2 m k ;;
    match found with
    | None => mapassign m k v
    | Some _ => ret tt
    end ;;;
    merge_loop m rest
  end.

Definition merge (m other : Metadata) : Go unit :=
  kvs <- maprange other ;;
  merge_loop m kvs.

(** *** [func (m Metadata) validate() error] *)

Fixpoint validate_loop (ks : list string) : option error :=
  match ks with
  | [] => None
  | k :: rest =>
    let l := len k in
    if l >? 40 then
      Some (fmt.Errorf unicodePrint "metadata key %q exceed 40 characters: %d"
                       [fmt.Str k; fmt.Int l])
    else validate_loop rest
  end.

Definition validate (m : Metadata) : Go (option error) :=
  n <- maplen m ;;
  if n >? 50 then ret (Some errTooMuchMetadataKeys)
  else
    kvs <- maprange m ;;
    ret (validate_loop kvs.*1).

(** *** [func defaultTime(t time.Time) time.Time] *)

Definition defaultTime (t : time.Time) : Go time.Time :=
  if decide (t = time.zero) then
    now <- Now ;;
    ret (time.UTC now)
  else ret t.

(** *** [func defaultIdempotencyKey(key string) string] *)

Definition defaultIdempotencyKey (key : string) : Go string :=
  if decide (key = "") then
    u <- New ;;
    ret (uuid.String u)
  else ret key.

(** *** The Event Preparer *)

(** Modelled from the spec: the Event Preparer [prepare] of the spec's
    section 4.1.  The function of the package that runs the steps on an
    event before sending it is not among the sources; the steps are the
    package's own [defaultTime], [defaultIdempotencyKey], [merge] and
    [validate], taken in the order of the spec's list, the merge being
    done on the event's own map. *)
Definition prepare (event : Event) (globalMetadata : Metadata) : Go (error + Event) :=
  occurredAt <- defaultTime (Event.OccurredAt event) ;;
  key <- defaultIdempotencyKey (Event.IdempotencyKey event) ;;
  merge (Event.Metadata event) globalMetadata ;;;
  err <- validate (Event.Metadata event) ;;
  match err with
  | Some e => ret (inl e)
  | None =>
    ret (inr (Event.mk (Event.Action event) (Event.ActionType event)
                       (Event.ActorName event) (Event.ActorID event)
                       (Event.Group event) key (Event.Location event)
                       (Event.Metadata event) occurredAt
                       (Event.TargetName event) (Event.TargetID event)))
  end.

End auditlog.

Arguments World V : clear implicits.
Arguments Go V A : clear implicits.

(** ** The List Parameter Normalizer *)

(** Modelled from the spec: [ListRequestParams] and its method
    [GetLimit], the List Parameter Normalizer of the spec's section 4.2,
    defined by the table given there.  The file that declares them is not
    among the sources; its test [auditlog/api_test.go] is. *)
Record ListRequestParams : Type := mkListRequestParams {
  Limit : Z
}.

Definition GetLimit (params : ListRequestParams) : Z :=
  if Limit params <=? 0 then 10
  else if Limit params >? 1000 then 1000
  else Limit params.

(** The spec's other wording of the rule: a clamp to [1..1000], except
    that what is not positive gives the default 10. *)
Definition clampLimit (requested : Z) : Z :=
  if requested <=? 0 then 10 else Z.min (Z.max requested 1) 1000.

(** [var limits] of [auditlog/api_test.go]: inputs and expected
    outputs. *)
Definition limits : list (Z * Z) :=
  [(1, 1); (-1, 10); (0, 10); (1001, 1000); (100, 100)].

(** [TestEventsRequestParamsLimit]: no case of the table fails. *)
Definition TestEventsRequestParamsLimit : bool :=
  forallb (fun tt => GetLimit (mkListRequestParams (fst tt)) =? snd tt) limits.

(** ** Vocabulary of the properties *)

(** [includes part whole]: [part] occurs in [whole] as a run of
    consecutive bytes. *)
Definition includes (part whole : string) : Prop :=
  exists pre post : string, whole = pre ++ part ++ post.

(** The message of the error [validate] makes for the key [k]. *)
Definition keyTooLongMessage (unicodePrint : Z -> bool) (k : string) : string :=
  "metadata key " ++ strconv.Quote unicodePrint k ++
  " exceed 40 characters: " ++ strconv.FormatInt (len k).

(** Bytes that [Quote] copies as they are: printable ASCII other than
    the double quote and the backslash. *)
Definition plainByte (c : ascii) : bool :=
  (0x20 <=? byteZ c) && (byteZ c <=? 0x7E) &&
  negb (Ascii.eqb c dquote) && negb (Ascii.eqb c backslash).

Fixpoint plainString (s : string) : bool :=
  match s with
  | EmptyString => true
  | String c t => plainByte c && plainString t
  end.

Definition isLowerHex (c : ascii) : bool :=
  existsb (Ascii.eqb c) (list_ascii_of_string "0123456789abcdef").

Definition isVariantHex (c : ascii) : bool :=
  existsb (Ascii.eqb c) (list_ascii_of_string "89ab").

(** What one place of a pattern asks of a byte: a hexadecimal digit
    for [x], one of [8 9 a b] for [y], and otherwise the byte of the
    pattern itself. *)
Definition matchesAt (p c : ascii) : bool :=
  match p with
  | "x"%char => isLowerHex c
  | "y"%char => isVariantHex c
  | _ => Ascii.eqb p c
  end.

(** [matchesPattern pat s]: [s] has the length of [pat] and matches it
    place by place. *)
Fixpoint matchesPattern (pat s : string) : bool :=
  match pat, s with
  | EmptyString, EmptyString => true
  | String p pat', String c s' => matchesAt p c && matchesPattern pat' s'
  | _, _ => false
  end.

(** The text of a version-4 UUID of the RFC 4122 variant: five groups
    of 8, 4, 4, 4 and 12 hexadecimal digits, the third starting with the
    version [4], the fourth with the variant bits [10]. *)
Definition isUUIDv4Text (s : string) : bool :=
  matchesPattern "xxxxxxxx-xxxx-4xxx-yxxx-xxxxxxxxxxxx" s.

(** The integer a string of decimal digits (with an optional leading
    minus sign) writes; nothing for any other string, the empty one
    included. *)
Definition decimalValue (s : string) : option Z :=
  option_map Z.of_int (NilZero.int_of_string s).

(** ** Sample data

    A world to run the package on: metadata values are integers here. *)

(** A table for [strconv.IsPrint] that finds no rune above Latin-1
    printable. *)
Definition sampleTable : Z -> bool := fun _ => false.

Fixpoint repeatString (n : nat) (s : string) : string :=
  match n with
  | O => ""
  | S n' => s ++ repeatString n' s
  end.

(** 41 bytes, 41 runes. *)
Definition key41 : string := "aaaaaaaaaabbbbbbbbbbccccccccccdddddddddde".

(** 21 times U+00E9 (two bytes each): 42 bytes, 21 runes. *)
Definition keyAccents : string := repeatString 21 (String "195" (String "169" "")).

(** 41 bytes, one of them a line feed. *)
Definition keyNewline : string := String "010" (repeatString 40 "n").

Definition keyOf (i : nat) : string := "k" ++ NilZero.string_of_uint (Nat.to_uint i).

(** A map of [n] keys [k0], [k1], ... *)
Definition numbered (n : nat) : gmap string Z :=
  list_to_map (map (fun i => (keyOf i, Z.of_nat i)) (seq 0 n)).

Definition eventMap : ref := 1%positive.
Definition globalMap : ref := 2%positive.
Definition longKeyMap : ref := 3%positive.
Definition accentsMap : ref := 4%positive.
Definition map51 : ref := 5%positive.
Definition map50 : ref := 6%positive.
Definition emptyMap : ref := 7%positive.

(** A reading of the clock as [time.Now] gives it: monotonic bit set,
    33 bits of seconds and 30 of nanoseconds in [wall], location
    Local. *)
Definition sampleClock : time.Time :=
  time.mkTime (Z.lor time.hasMonotonic (Z.lor (Z.shiftl 4455667788 30) 123456789))
              987654321 (Some time.localLoc).

Definition sampleWorld : World Z :=
  mkWorld
    (list_to_map
       [(eventMap, <["a" := 1]> ∅);
        (globalMap, <["a" := 2]> (<["b" := 3]> ∅));
        (longKeyMap, <[key41 := 0]> ∅);
        (accentsMap, <[keyAccents := 0]> ∅);
        (map51, numbered 51);
        (map50, numbered 50);
        (emptyMap, ∅)])
    sampleClock
    (map ascii_of_nat (seq 1 20))
    [[1%nat]; [3%nat; 0%nat]].

Definition sampleEvent : Event :=
  Event.mk "document.viewed" Create "Jairo Kunde" "user_01DGZ0FAXN978HCET66Q98QMTQ"
           "abstract.com" "abc" "55.27.223.26" (Some map50)
           (time.mkTime 0 63900000000 None)
           "central.class" "doc_01DGZ0FAXP4HA4X0BVFKS0ZH4Y".

(** ** Package [auditlog]: its variables and [SetAPIKey] *)

(** The fields of [Client] that the composite literal of [DefaultClient]
    names; the type itself is declared in a file that is not among the
    sources. *)
Record Client : Type := mkClient {
  APIKey : string;
  Endpoint : string
}.

(** The variables of the package: the client [DefaultClient] points to,
    and [GlobalMetadata]. *)
Record Package : Type := mkPackage {
  DefaultClient : Client;
  GlobalMetadata : Metadata
}.

(** The values the [var] block gives them; [getenv] is [os.Getenv].
    [GlobalMetadata] has no initialiser: it starts as the [nil] map. *)
Definition initPackage (getenv : string -> string) : Package :=
  mkPackage (mkClient (getenv "WORKOS_API_KEY") "https://api.workos.com/events")
            None.

(** [func SetAPIKey(k string)] *)
Definition SetAPIKey (k : string) (p : Package) : Package :=
  mkPackage (mkClient k (Endpoint (DefaultClient p))) (GlobalMetadata p).

(** ** More vocabulary *)

(** The 122 bits of sixteen random bytes that a version-4 UUID keeps:
    all of them but the high four of byte 6 and the high two of byte 8,
    which are cleared here. *)
Definition freeBits (r : list ascii) : list ascii :=
  alter (fun b => Zbyte (Z.land (byteZ b) 0x3f)) 8%nat
    (alter (fun b => Zbyte (Z.land (byteZ b) 0x0f)) 6%nat (take 16 r)).

(** Bytes that show in one line of text: neither a control character
    (below [0x20], the line feed among them) nor DEL. *)
Definition visibleByte (c : ascii) : bool :=
  (0x20 <=? byteZ c) && negb (byteZ c =? 0x7F).

Fixpoint visibleString (s : string) : bool :=
  match s with
  | EmptyString => true
  | String c t => visibleByte c && visibleString t
  end.

(** A second world: one map with two over-long keys, one whose single
    key holds a line feed, and one with ten of the numbered keys. *)
Definition twoLongMap : ref := 1%positive.
Definition newlineMap : ref := 2%positive.
Definition map10 : ref := 3%positive.

Definition sampleWorld2 : World Z :=
  mkWorld
    (list_to_map
       [(twoLongMap, <[key41 := 1]> (<[keyAccents := 2]> (<["short" := 3]> ∅)));
        (newlineMap, <[keyNewline := 0]> ∅);
        (map10, numbered 10)])
    sampleClock
    (ascii_of_nat 1 :: ascii_of_nat 2 :: ascii_of_nat 3 :: ascii_of_nat 4 ::
     ascii_of_nat 5 :: ascii_of_nat 6 :: ascii_of_nat 247 :: ascii_of_nat 8 ::
     ascii_of_nat 73 :: map ascii_of_nat (seq 10 7))
    [].

(** * Properties *)

(** ** The order of a [range] *)

Lemma rangeOrder_nil {A : Type} (seed : list nat) : rangeOrder seed (@nil A) = [].
Proof. destruct seed; reflexivity. Qed.

(** Whatever the seed, a [range] visits each entry once. *)
Lemma rangeOrder_perm {A : Type} (seed : list nat) (l : list A) :
  rangeOrder seed l ≡ₚ l.
Proof.
  revert l. induction seed as [|i seed IH]; intros l; simpl; [reflexivity|].
  destruct (l !! i) as [x|] eqn:Hi; [|reflexivity].
  rewrite IH. symmetry. by apply delete_Permutation.
Qed.

(** Every order of the entries is the order of some seed. *)
Lemma rangeOrder_complete {A : Type} (l l' : list A) :
  l' ≡ₚ l -> exists seed, rangeOrder seed l = l'.
Proof.
  revert l. induction l' as [|x l' IH]; intros l Hp.
  - apply Permutation_nil_l in Hp. subst l. by exists [].
  - assert (x ∈ l) as Hx by (rewrite <- Hp; left).
    apply list_elem_of_lookup in Hx as [i Hi].
    assert (l' ≡ₚ delete i l) as Hd.
    { apply (Permutation_cons_inv (a := x)).
      rewrite Hp. by apply delete_Permutation. }
    destruct (IH _ Hd) as [seed Hs].
    exists (i :: seed). simpl. by rewrite Hi, Hs.
Qed.

Section properties.

Context {V : Type}.
Variable unicodePrint : Z -> bool.

Implicit Types (w : World V) (m other g : Metadata) (k : string) (v : V).

(** Every order of the entries of a map is the order of the [range] in
    some world that differs only by its next seed. *)
Lemma maprange_any_order m w (order : list (string * V)) :
  order ≡ₚ map_to_list (contents w m) ->
  exists seed,
    fst (maprange m (set_seeds (seed :: seeds w) w)) = Done order.
Proof.
  intros Hp. destruct (rangeOrder_complete _ _ Hp) as [seed Hseed].
  exists seed. unfold maprange. cbn [fst]. f_equal.
  replace (contents (set_seeds (seed :: seeds w) w) m) with (contents w m)
    by (by destruct m).
  exact Hseed.
Qed.

(** ** Running a computation *)

Lemma bind_Done {A B : Type} (c : Go V A) (f : A -> Go V B) w a w' :
  c w = (Done a, w') -> bind c f w = f a w'.
Proof. unfold bind. by intros ->. Qed.

Lemma bind_Panic {A B : Type} (c : Go V A) (f : A -> Go V B) w msg w' :
  c w = (Panic msg, w') -> bind c f w = (Panic msg, w').
Proof. unfold bind. by intros ->. Qed.

(** The entries visited by a [range] over a map are the map. *)
Lemma maprange_spec m w :
  exists kvs, maprange m w = (Done kvs, set_seeds (tl (seeds w)) w)
              /\ kvs ≡ₚ map_to_list (contents w m)
              /\ list_to_map kvs = contents w m.
Proof.
  eexists. split; [reflexivity|].
  assert (rangeOrder (hd [] (seeds w)) (map_to_list (contents w m))
          ≡ₚ map_to_list (contents w m)) as Hp by apply rangeOrder_perm.
  split; [exact Hp|].
  rewrite <- (list_to_map_to_list (contents w m)) at 2.
  symmetry. apply list_to_map_proper; [apply NoDup_fst_map_to_list|].
  by symmetry.
Qed.

Lemma contents_set_seeds s w m : contents (set_seeds s w) m = contents w m.
Proof. by destruct m. Qed.

Lemma contents_set_entropy r w m : contents (set_entropy r w) m = contents w m.
Proof. by destruct m. Qed.

(** ** [merge] *)

(** A key the left map holds hides what the right map has for it. *)
Lemma union_insert_hidden (c d : gmap string V) k v x :
  c !! k = Some x -> c ∪ <[k := v]> d = c ∪ d.
Proof.
  intros Hk. apply map_eq. intros j. rewrite !lookup_union.
  destruct (decide (k = j)) as [<-|Hne].
  - rewrite Hk. by destruct (<[k:=v]> d !! k), (d !! k).
  - by rewrite lookup_insert_ne.
Qed.

Lemma union_insert_fresh (c d : gmap string V) k v :
  c !! k = None -> <[k := v]> c ∪ d = c ∪ <[k := v]> d.
Proof.
  intros Hk. by rewrite <- insert_union_l, <- insert_union_r.
Qed.

(** The loop on a map object: it ends normally, the object holds what
    it held and, for the other keys visited, the first value visited;
    nothing else of the world changes. *)
Lemma merge_loop_Some (l : ref) (kvs : list (string * V)) w :
  exists w',
    merge_loop (Some l) kvs w = (Done tt, w')
    /\ contents w' (Some l) = contents w (Some l) ∪ list_to_map kvs
    /\ (forall l', l' ≠ l -> heap w' !!! l' = heap w !!! l')
    /\ clock w' = clock w /\ entropy w' = entropy w /\ seeds w' = seeds w.
Proof.
  revert w. induction kvs as [|[k v] rest IH]; intros w.
  - exists w. simpl. rewrite (right_id_L ∅ (∪)). done.
  - cbn [merge_loop]. unfold bind at 1. unfold mapaccess2.
    destruct (contents w (Some l) !! k) as [x|] eqn:Hk.
    + unfold bind at 1, ret at 1.
      destruct (IH w) as (w' & Hrun & Hc & Hframe & Hrest).
      exists w'. split; [exact Hrun|]. split; [|done].
      rewrite Hc. cbn [list_to_map foldr uncurry]. simpl.
      symmetry. by eapply union_insert_hidden.
    + unfold bind at 1, mapassign at 1.
      set (w1 := set_heap _ w).
      destruct (IH w1) as (w' & Hrun & Hc & Hframe & Hrest).
      exists w'. split; [exact Hrun|].
      assert (contents w1 (Some l) = <[k := v]> (contents w (Some l))) as Hw1.
      { unfold w1. simpl. by rewrite lookup_total_insert_eq. }
      split; [|split].
      * rewrite Hc, Hw1. simpl. by apply union_insert_fresh.
      * intros l' Hne. rewrite (Hframe l' Hne). unfold w1. simpl.
        by rewrite lookup_total_insert_ne.
      * exact Hrest.
Qed.

(** The loop on the [nil] map: the first assignment panics, and there is
    one as soon as there is an entry to visit. *)
Lemma merge_loop_nil (kvs : list (string * V)) w :
  merge_loop None kvs w =
  match kvs with
  | [] => (Done tt, w)
  | _ :: _ => (Panic "assignment to entry in nil map", w)
  end.
Proof.
  destruct kvs as [|[k v] rest]; [reflexivity|].
  cbn [merge_loop]. unfold bind, mapaccess2. simpl.
  by rewrite lookup_empty.
Qed.

Lemma range_nothing_iff m w kvs :
  kvs ≡ₚ map_to_list (contents w m) -> kvs = [] <-> contents w m = ∅.
Proof.
  intros Hp. split.
  - intros ->. apply Permutation_nil_l in Hp. by apply map_to_list_empty_iff.
  - intros Hc. rewrite Hc, map_to_list_empty in Hp. by apply Permutation_nil_r.
Qed.

(** [merge] on a map object. *)
Lemma merge_Some (l : ref) g w :
  exists w',
    merge (Some l) g w = (Done tt, w')
    /\ contents w' (Some l) = contents w (Some l) ∪ contents w g
    /\ (forall l', l' ≠ l -> heap w' !!! l' = heap w !!! l')
    /\ clock w' = clock w /\ entropy w' = entropy w
    /\ seeds w' = tl (seeds w).
Proof.
  destruct (maprange_spec g w) as (kvs & Hrange & _ & Hmap).
  destruct (merge_loop_Some l kvs (set_seeds (tl (seeds w)) w))
    as (w' & Hrun & Hc & Hframe & Hclock & Hentropy & Hseeds).
  exists w'. split.
  - unfold merge. by rewrite (bind_Done _ _ _ _ _ Hrange).
  - rewrite Hc, Hmap. repeat split; try done.
Qed.

(** [merge] on the [nil] map. *)
Lemma merge_nil g w :
  merge None g w =
  (if decide (contents w g = ∅) then Done tt
   else Panic "assignment to entry in nil map",
   set_seeds (tl (seeds w)) w).
Proof.
  destruct (maprange_spec g w) as (kvs & Hrange & Hp & _).
  unfold merge. rewrite (bind_Done _ _ _ _ _ Hrange), merge_loop_nil.
  pose proof (range_nothing_iff g w kvs Hp) as Hiff.
  destruct (decide (contents w g = ∅)) as [He|Hne].
  - by rewrite (proj2 Hiff He).
  - destruct kvs; [|reflexivity]. by destruct Hne; apply Hiff.
Qed.

(** C2 (as amended). Merging the global metadata [g] into the event's
    metadata [m], unless [m] is the [nil] map while [g] has an entry,
    ends normally and leaves in [m]: every key [m] held, with the value
    [m] had for it, so that no global value overrides an event value;
    every key of [g] that [m] did not hold, with the value of [g]; and
    no other key.  This holds for every order in which the entries of
    [g] are visited, and also when [g] is [nil] or is [m] itself. *)
Theorem merge_event_keys_win w m g :
  m ≠ None \/ contents w g = ∅ ->
  exists w',
    merge m g w = (Done tt, w')
    /\ (forall k v, contents w m !! k = Some v -> contents w' m !! k = Some v)
    /\ (forall k v, contents w m !! k = None -> contents w g !! k = Some v ->
                    contents w' m !! k = Some v)
    /\ (forall k, contents w m !! k = None -> contents w g !! k = None ->
                  contents w' m !! k = None).
Proof.
  intros Hpre. destruct m as [l|].
  - destruct (merge_Some l g w) as (w' & Hrun & Hc & _).
    exists w'. split; [exact Hrun|]. rewrite Hc.
    split; [|split].
    + intros k v Hk. by apply lookup_union_Some_l.
    + intros k v Hk Hg. by rewrite lookup_union_r.
    + intros k Hk Hg. by apply lookup_union_None.
  - destruct Hpre as [Hm|Hg]; [done|].
    exists (set_seeds (tl (seeds w)) w). rewrite merge_nil.
    destruct (decide (contents w g = ∅)); [|done].
    split; [reflexivity|]. simpl. split; [|split]; intros k.
    + intros v. by rewrite lookup_empty.
    + intros v _. by rewrite Hg, lookup_empty.
    + intros _ _. apply lookup_empty.
Qed.

(** C8. When the event's metadata is the [nil] map and the global
    metadata has an entry, [merge] panics on the assignment to the [nil]
    map and no map is produced or changed; in every other case, the
    event's metadata being a map object or the global metadata having no
    entry, [merge] ends normally. *)
Theorem merge_nil_panics w m g :
  (m = None /\ contents w g ≠ ∅ ->
   merge m g w = (Panic "assignment to entry in nil map", set_seeds (tl (seeds w)) w))
  /\ (m ≠ None \/ contents w g = ∅ -> exists w', merge m g w = (Done tt, w')).
Proof.
  split.
  - intros [-> Hne]. rewrite merge_nil. by destruct (decide (contents w g = ∅)).
  - intros Hpre.
    destruct m as [l|].
    + destruct (merge_Some l g w) as (w' & Hrun & _). by exists w'.
    + destruct Hpre as [Hm|Hg]; [done|].
      rewrite merge_nil. destruct (decide (contents w g = ∅)); [|done].
      by eexists.
Qed.

(** C10. Merging [g] into [m] never modifies [g]: whether [merge] ends
    normally or panics, and whether or not [m] and [g] are one map, [g]
    holds afterwards exactly the entries it held before: the same keys
    with the same values. *)
Theorem merge_leaves_other w m g :
  contents (snd (merge m g w)) g = contents w g
  /\ forall k, contents (snd (merge m g w)) g !! k = contents w g !! k.
Proof.
  assert (contents (snd (merge m g w)) g = contents w g) as Heq.
  { destruct m as [l|].
    - destruct (merge_Some l g w) as (w' & Hrun & Hc & Hframe & _).
      rewrite Hrun. cbn [snd]. destruct g as [l'|]; [|reflexivity].
      destruct (decide (l' = l)) as [->|Hne].
      + rewrite Hc. apply map_union_idemp.
      + simpl. by apply Hframe.
    - rewrite merge_nil. cbn [snd]. apply contents_set_seeds. }
  split; [exact Heq|]. intros k. by rewrite Heq.
Qed.

(** What [merge] leaves of the rest of the world: the other map objects,
    the clock and the entropy. *)
Lemma merge_frame w m g (l' : ref) :
  m ≠ Some l' ->
  heap (snd (merge m g w)) !!! l' = heap w !!! l'
  /\ clock (snd (merge m g w)) = clock w
  /\ entropy (snd (merge m g w)) = entropy w.
Proof.
  intros Hne. destruct m as [l|].
  - destruct (merge_Some l g w) as (w' & -> & _ & Hframe & Hclock & Hentropy & _).
    cbn [snd]. split; [|done]. apply Hframe. congruence.
  - by rewrite merge_nil.
Qed.

(** ** Strings *)

Lemma append_cons (c : ascii) (s t : string) : String c s ++ t = String c (s ++ t).
Proof. reflexivity. Qed.

Lemma append_nil_r (s : string) : s ++ "" = s.
Proof. induction s as [|c s IH]; [reflexivity|by rewrite append_cons, IH]. Qed.

Lemma append_assoc (s t u : string) : (s ++ t) ++ u = s ++ t ++ u.
Proof. induction s as [|c s IH]; [reflexivity|by rewrite !append_cons, IH]. Qed.

Lemma includes_middle (pre part post : string) : includes part (pre ++ part ++ post).
Proof. by exists pre, post. Qed.

Lemma includes_end (pre part : string) : includes part (pre ++ part).
Proof. exists pre, "". by rewrite append_nil_r. Qed.

Lemma byteZ_range (c : ascii) : 0 <= byteZ c < 256.
Proof.
  unfold byteZ. pose proof (N_ascii_bounded c) as Hb. lia.
Qed.

Lemma Zbyte_byteZ (c : ascii) : Zbyte (byteZ c) = c.
Proof.
  unfold Zbyte. rewrite Z.mod_small by apply byteZ_range.
  unfold byteZ. by rewrite N2Z.id, ascii_N_embedding.
Qed.

(** ** [strconv.Quote] on plain keys *)

Lemma appendEscapedRune_plain (c : ascii) :
  plainByte c = true ->
  strconv.appendEscapedRune unicodePrint (byteZ c) = String c "".
Proof.
  destruct c as [b0 b1 b2 b3 b4 b5 b6 b7].
  destruct b0, b1, b2, b3, b4, b5, b6, b7;
    vm_compute; intros Hp; solve [discriminate Hp | reflexivity].
Qed.

Lemma plainByte_ascii (c : ascii) : plainByte c = true -> 0x20 <= byteZ c <= 0x7E.
Proof. unfold plainByte. intros Hp. repeat (apply andb_prop in Hp as [Hp ?]). lia. Qed.

Lemma quoteFrom_plain (s : string) :
  plainString s = true -> strconv.quoteFrom unicodePrint s 0 = s.
Proof.
  induction s as [|c s IH]; [reflexivity|].
  cbn [plainString]. intros [Hc Hs]%andb_prop.
  pose proof (plainByte_ascii c Hc) as Hr.
  cbn [strconv.quoteFrom].
  replace (byteZ c >=? utf8.RuneSelf) with false
    by (symmetry; unfold utf8.RuneSelf; rewrite Z.geb_leb; lia).
  replace ((1 =? 1)%nat && (byteZ c =? utf8.RuneError)) with false
    by (symmetry; unfold utf8.RuneError; simpl; lia).
  rewrite (appendEscapedRune_plain c Hc), append_cons.
  change (1 - 1)%nat with 0%nat. by rewrite IH.
Qed.

(** A plain key is quoted as itself between two double quotes. *)
Lemma Quote_plain (s : string) :
  plainString s = true ->
  strconv.Quote unicodePrint s = String dquote (s ++ String dquote "").
Proof. intros Hs. unfold strconv.Quote. by rewrite quoteFrom_plain. Qed.

(** ** [validate] *)

Lemma Errorf_key_too_long k :
  fmt.Errorf unicodePrint "metadata key %q exceed 40 characters: %d"
             [fmt.Str k; fmt.Int (len k)]
  = errorString (keyTooLongMessage unicodePrint k).
Proof.
  change (fmt.Errorf _ _ _) with
    (errorString ("metadata key " ++ strconv.Quote unicodePrint k ++
                  " exceed 40 characters: " ++ strconv.FormatInt (len k) ++ "")).
  by rewrite append_nil_r.
Qed.

(** The loop over the keys stops at the first key longer than 40. *)
Lemma validate_loop_None (ks : list string) :
  validate_loop unicodePrint ks = None <-> forall k, k ∈ ks -> len k <= 40.
Proof.
  induction ks as [|k ks IH]; simpl.
  - split; [|done]. intros _ k Hk. by apply elem_of_nil in Hk.
  - destruct (Z.gtb_spec (len k) 40) as [Hlong|Hshort].
    + split; [done|]. intros Hall. specialize (Hall k ltac:(left)). lia.
    + rewrite IH. split.
      * intros Hall k' [->|Hk']%elem_of_cons; [lia|by apply Hall].
      * intros Hall k' Hk'. apply Hall. by right.
Qed.

Lemma validate_loop_Some (ks : list string) (e : error) :
  validate_loop unicodePrint ks = Some e ->
  exists k, k ∈ ks /\ 40 < len k /\ e = errorString (keyTooLongMessage unicodePrint k).
Proof.
  induction ks as [|k ks IH]; simpl; [done|].
  destruct (Z.gtb_spec (len k) 40) as [Hlong|Hshort].
  - intros [= <-]. exists k. split; [left|]. split; [lia|].
    apply Errorf_key_too_long.
  - intros He. destruct (IH He) as (k' & Hk' & Hrest). exists k'.
    split; [by right|exact Hrest].
Qed.

(** The keys a [range] visits are the keys of the map. *)
Lemma range_keys m w (kvs : list (string * V)) k :
  kvs ≡ₚ map_to_list (contents w m) -> k ∈ kvs.*1 <-> k ∈ dom (contents w m).
Proof.
  intros Hp. rewrite Hp, elem_of_dom, list_elem_of_fmap. split.
  - intros ([k' v] & -> & Hin). apply elem_of_map_to_list in Hin. by exists v.
  - intros [v Hv]. exists (k, v). split; [done|]. by apply elem_of_map_to_list.
Qed.

(** [validate] unfolded: the count first, then the keys in the order of
    the range. *)
Lemma validate_run m w :
  validate unicodePrint m w =
  if (50 <? Z.of_nat (size (contents w m))) then
    (Done (Some errTooMuchMetadataKeys), w)
  else
    (Done (validate_loop unicodePrint
             (rangeOrder (hd [] (seeds w)) (map_to_list (contents w m))).*1),
     set_seeds (tl (seeds w)) w).
Proof.
  unfold validate, bind, maplen. rewrite Z.gtb_ltb.
  by destruct (50 <? Z.of_nat (size (contents w m))).
Qed.

Lemma validate_too_many m w :
  (50 < size (contents w m))%nat ->
  validate unicodePrint m w = (Done (Some errTooMuchMetadataKeys), w).
Proof.
  intros Hn. rewrite validate_run.
  destruct (Z.ltb_spec 50 (Z.of_nat (size (contents w m)))); [done|lia].
Qed.

Lemma validate_key_too_long m w :
  (size (contents w m) <= 50)%nat ->
  (exists k, k ∈ dom (contents w m) /\ 40 < len k) ->
  exists k', k' ∈ dom (contents w m) /\ 40 < len k'
    /\ validate unicodePrint m w =
       (Done (Some (errorString (keyTooLongMessage unicodePrint k'))),
        set_seeds (tl (seeds w)) w).
Proof.
  intros Hn (k & Hk & Hlong). rewrite validate_run.
  destruct (Z.ltb_spec 50 (Z.of_nat (size (contents w m)))); [lia|].
  set (kvs := rangeOrder _ _).
  assert (kvs ≡ₚ map_to_list (contents w m)) as Hp by apply rangeOrder_perm.
  destruct (validate_loop unicodePrint kvs.*1) as [e|] eqn:He.
  - apply validate_loop_Some in He as (k' & Hk' & Hlong' & ->).
    exists k'. split; [by eapply range_keys|]. done.
  - exfalso. pose proof (proj1 (validate_loop_None _) He k) as Hshort.
    assert (k ∈ kvs.*1) as Hin by (by eapply range_keys).
    specialize (Hshort Hin). lia.
Qed.

Lemma validate_ok m w :
  (size (contents w m) <= 50)%nat ->
  (forall k, k ∈ dom (contents w m) -> len k <= 40) ->
  validate unicodePrint m w = (Done None, set_seeds (tl (seeds w)) w).
Proof.
  intros Hn Hall. rewrite validate_run.
  destruct (Z.ltb_spec 50 (Z.of_nat (size (contents w m)))); [lia|].
  set (kvs := rangeOrder _ _).
  assert (kvs ≡ₚ map_to_list (contents w m)) as Hp by apply rangeOrder_perm.
  replace (validate_loop unicodePrint kvs.*1) with (@None error); [done|].
  symmetry. apply validate_loop_None. intros k Hk. apply Hall.
  by eapply range_keys.
Qed.

(** C3. [validate] returns an error exactly when the map has more than
    50 entries or holds a key longer than 40 (a length counted by [len],
    as the code counts it).  A map of 51 keys fails with
    [errTooMuchMetadataKeys]; a map within the count that holds a key of
    length 41 fails with the key-too-long error of one of its keys longer
    than 40; a map of exactly 50 keys, none longer than 40, passes. *)
Theorem validate_errors w m :
  let c := contents w m in
  ((exists err, fst (validate unicodePrint m w) = Done (Some err))
   <-> ((50 < size c)%nat \/ exists k, k ∈ dom c /\ 40 < len k))
  /\ (size c = 51%nat ->
      fst (validate unicodePrint m w) = Done (Some errTooMuchMetadataKeys))
  /\ ((size c <= 50)%nat -> (exists k, k ∈ dom c /\ len k = 41) ->
      exists k', k' ∈ dom c /\ 40 < len k'
        /\ fst (validate unicodePrint m w) =
           Done (Some (errorString (keyTooLongMessage unicodePrint k'))))
  /\ (size c = 50%nat -> (forall k, k ∈ dom c -> len k <= 40) ->
      fst (validate unicodePrint m w) = Done None).
Proof.
  intros c. subst c. split; [|split; [|split]].
  - split.
    + intros [err Herr].
      destruct (le_lt_dec (size (contents w m)) 50) as [Hn|Hn]; [|by left].
      right. rewrite validate_run in Herr.
      destruct (Z.ltb_spec 50 (Z.of_nat (size (contents w m)))); [lia|].
      cbn [fst] in Herr. injection Herr as Herr.
      apply validate_loop_Some in Herr as (k & Hk & Hlong & _).
      exists k. split; [|exact Hlong].
      eapply range_keys; [|exact Hk]. apply rangeOrder_perm.
    + intros [Hn|Hlong].
      * rewrite (validate_too_many m w Hn). by eexists.
      * destruct (le_lt_dec (size (contents w m)) 50) as [Hn|Hn].
        -- destruct (validate_key_too_long m w Hn Hlong) as (k' & _ & _ & ->).
           by eexists.
        -- rewrite (validate_too_many m w Hn). by eexists.
  - intros Hn. rewrite validate_too_many; [done|lia].
  - intros Hn (k & Hk & Hlen).
    destruct (validate_key_too_long m w Hn) as (k' & Hk' & Hlong & ->).
    { exists k. split; [done|lia]. }
    by exists k'.
  - intros Hn Hall. rewrite validate_ok; [done|lia|done].
Qed.

(** [validate] never panics and changes no map, clock or entropy. *)
Lemma validate_pure m w :
  (exists r, fst (validate unicodePrint m w) = Done r)
  /\ heap (snd (validate unicodePrint m w)) = heap w
  /\ clock (snd (validate unicodePrint m w)) = clock w
  /\ entropy (snd (validate unicodePrint m w)) = entropy w.
Proof.
  rewrite validate_run.
  destruct (50 <? Z.of_nat (size (contents w m))); (split; [by eexists|done]).
Qed.

(** [FormatInt] writes the decimal digits of its argument. *)
Lemma decimalValue_FormatInt (i : Z) : decimalValue (strconv.FormatInt i) = Some i.
Proof.
  unfold decimalValue, strconv.FormatInt.
  assert (Z.to_int i <> Decimal.Pos Decimal.Nil
          /\ Z.to_int i <> Decimal.Neg Decimal.Nil) as [Hpos Hneg].
  { destruct i as [|q|q]; cbn; split; try discriminate;
      intros [= Hnil]; revert Hnil; apply Unsigned.to_uint_nonnil. }
  rewrite NilZero.isi by assumption. cbn [option_map]. f_equal.
  apply DecimalZ.of_to.
Qed.

(** C7 (as amended). Every key-too-long error [validate] returns is
    about a key [k] of the map that is longer than 40, and its message
    is [metadata key <k as %q writes it> exceed 40 characters: <len k>].
    It includes the key as [strconv.Quote] writes it: between double
    quotes, and byte for byte when the key is plain (printable ASCII
    without double quote or backslash); a key that is not plain is
    written with Go's escapes and need not occur in the message as it
    is.  It ends with the length of the key in decimal digits, which
    read back as [len k].  Such an error is returned whenever a map
    within the count holds a key longer than 40. *)
Theorem key_too_long_message w m :
  (forall msg,
     fst (validate unicodePrint m w) = Done (Some (errorString msg)) ->
     exists k,
       k ∈ dom (contents w m) /\ 40 < len k
       /\ msg = "metadata key " ++ strconv.Quote unicodePrint k ++
                " exceed 40 characters: " ++ strconv.FormatInt (len k)
       /\ decimalValue (strconv.FormatInt (len k)) = Some (len k)
       /\ includes (strconv.Quote unicodePrint k) msg
       /\ includes (strconv.FormatInt (len k)) msg
       /\ (plainString k = true ->
           strconv.Quote unicodePrint k = String dquote (k ++ String dquote "")
           /\ includes k msg))
  /\ ((size (contents w m) <= 50)%nat ->
      (exists k, k ∈ dom (contents w m) /\ 40 < len k) ->
      exists msg, fst (validate unicodePrint m w) = Done (Some (errorString msg))).
Proof.
  split.
  - intros msg Hmsg. rewrite validate_run in Hmsg.
    destruct (50 <? Z.of_nat (size (contents w m))); [discriminate Hmsg|].
    cbn [fst] in Hmsg. injection Hmsg as Hmsg.
    apply validate_loop_Some in Hmsg as (k & Hk & Hlong & Heq).
    injection Heq as ->.
    exists k. split.
    { eapply range_keys; [|exact Hk]. apply rangeOrder_perm. }
    split; [exact Hlong|]. split; [reflexivity|].
    split; [apply decimalValue_FormatInt|].
    unfold keyTooLongMessage. split; [apply includes_middle|]. split.
    + rewrite <- (append_assoc _ " exceed 40 characters: "), <- append_assoc.
      apply includes_end.
    + intros Hplain. split; [by apply Quote_plain|].
      rewrite (Quote_plain k Hplain).
      exists ("metadata key " ++ String dquote ""),
             (String dquote "" ++ " exceed 40 characters: "
                ++ strconv.FormatInt (len k)).
      rewrite (append_assoc "metadata key "). f_equal.
      by rewrite !append_cons, append_assoc.
  - intros Hn Hlong.
    destruct (validate_key_too_long m w Hn Hlong) as (k' & _ & _ & ->).
    by eexists.
Qed.

(** C9. The length the key check compares with 40 is the number of
    bytes of the key, not its number of runes (Unicode characters),
    which plays no part.  For a key [k] of more than 40 bytes: the loop
    over the keys fails with a key-too-long error whenever it visits
    [k]; [validate] fails with a key-too-long error on every map within
    the count that holds [k]; and on the map whose only key is [k] the
    error is the one about [k]. *)
Theorem key_length_in_bytes (k : string) :
  40 < Z.of_nat (String.length k) ->
  (forall ks : list string, k ∈ ks ->
     exists k', k' ∈ ks /\ 40 < Z.of_nat (String.length k')
       /\ validate_loop unicodePrint ks
          = Some (errorString (keyTooLongMessage unicodePrint k')))
  /\ (forall w m, (size (contents w m) <= 50)%nat -> k ∈ dom (contents w m) ->
       exists k', k' ∈ dom (contents w m) /\ 40 < Z.of_nat (String.length k')
         /\ fst (validate unicodePrint m w)
            = Done (Some (errorString (keyTooLongMessage unicodePrint k'))))
  /\ (forall w m, dom (contents w m) = {[k]} ->
       fst (validate unicodePrint m w)
       = Done (Some (errorString (keyTooLongMessage unicodePrint k)))).
Proof.
  intros Hlong. split; [|split].
  - intros ks Hk.
    destruct (validate_loop unicodePrint ks) as [e|] eqn:He.
    + apply validate_loop_Some in He as (k' & Hk' & Hlong' & ->). by exists k'.
    + pose proof (proj1 (validate_loop_None ks) He k Hk) as Hshort.
      unfold len in Hshort. lia.
  - intros w m Hn Hk.
    destruct (validate_key_too_long m w Hn) as (k' & Hk' & Hlong' & Hrun).
    { by exists k. }
    exists k'. by rewrite Hrun.
  - intros w m Hdom.
    destruct (validate_key_too_long m w) as (k' & Hk' & _ & Hrun).
    { rewrite <- size_dom, Hdom, size_singleton. lia. }
    { exists k. split; [|exact Hlong]. rewrite Hdom. by apply elem_of_singleton. }
    rewrite Hdom in Hk'. apply elem_of_singleton in Hk' as ->. by rewrite Hrun.
Qed.

(** The number of runes of a string never exceeds its number of bytes. *)
Lemma runeCountFrom_le (s : string) (skip : nat) :
  utf8.runeCountFrom s skip <= len s.
Proof.
  unfold len. revert skip. induction s as [|c s IH]; intros skip.
  - simpl. lia.
  - cbn [utf8.runeCountFrom String.length]. destruct skip as [|n].
    + specialize (IH (snd (utf8.DecodeRuneInString (String c s)) - 1)%nat). lia.
    + specialize (IH n). lia.
Qed.

Lemma RuneCountInString_le (s : string) : utf8.RuneCountInString s <= len s.
Proof. apply runeCountFrom_le. Qed.

(** ** [defaultTime] *)

Lemma land_nsecMask_hasMonotonic (x : Z) :
  Z.land (Z.land x time.nsecMask) time.hasMonotonic = 0.
Proof.
  rewrite <- Z.land_assoc.
  change (Z.land time.nsecMask time.hasMonotonic) with 0.
  apply Z.land_0_r.
Qed.

(** [UTC] changes the location to UTC and keeps the instant. *)
Lemma UTC_loc (t : time.Time) : time.loc (time.UTC t) = None.
Proof. reflexivity. Qed.

Lemma UTC_sec (t : time.Time) : time.sec (time.UTC t) = time.sec t.
Proof.
  unfold time.UTC, time.setLoc, time.stripMono.
  destruct (Z.land (time.wall t) time.hasMonotonic =? 0) eqn:Hm; cbn [negb].
  - unfold time.sec. cbn [time.wall time.ext]. by rewrite Hm.
  - unfold time.sec at 1. cbn [time.wall time.ext].
    by rewrite land_nsecMask_hasMonotonic.
Qed.

Lemma UTC_nsec (t : time.Time) : time.nsec (time.UTC t) = time.nsec t.
Proof.
  unfold time.UTC, time.setLoc, time.stripMono, time.nsec.
  destruct (Z.land (time.wall t) time.hasMonotonic =? 0); cbn [negb time.wall];
    [reflexivity|].
  rewrite <- Z.land_assoc. by rewrite Z.land_diag.
Qed.

(** The zero timestamp is the zero value of the struct: a timestamp at
    the zero instant in another location [IsZero] but is not it. *)
Lemma IsZero_not_zero :
  time.IsZero (time.mkTime 0 0 (Some time.localLoc)) = true
  /\ time.mkTime 0 0 (Some time.localLoc) ≠ time.zero.
Proof. split; [reflexivity|discriminate]. Qed.

(** C4. [defaultTime] on the zero timestamp [time.Time{}] gives the
    reading of the clock taken to UTC (same instant, location UTC); on
    any other timestamp it gives that timestamp exactly, location
    included.  The world is left as it was. *)
Theorem defaultTime_spec w (t : time.Time) :
  (t = time.zero ->
   defaultTime t w = (Done (time.UTC (clock w)), w)
   /\ time.loc (time.UTC (clock w)) = None
   /\ time.sec (time.UTC (clock w)) = time.sec (clock w)
   /\ time.nsec (time.UTC (clock w)) = time.nsec (clock w))
  /\ (t ≠ time.zero -> defaultTime t w = (Done t, w)).
Proof.
  unfold defaultTime. split.
  - intros ->. destruct (decide (time.zero = time.zero)) as [_|Hne]; [|done].
    split; [reflexivity|]. split; [apply UTC_loc|].
    split; [apply UTC_sec|apply UTC_nsec].
  - intros Hne. by destruct (decide (t = time.zero)).
Qed.

(** ** [defaultIdempotencyKey] *)

Local Ltac bits c := destruct c as [[] [] [] [] [] [] [] []].

(** The two digits [hex.Encode] writes for a byte are hexadecimal
    digits; after [NewRandomFromReader] the first digit of byte 6 is the
    version [4] and the first digit of byte 8 carries the variant. *)
Lemma hex_digit_high (b : ascii) :
  isLowerHex (hex.digit (Z.shiftr (byteZ b) 4)) = true.
Proof. bits b; vm_compute; reflexivity. Qed.

Lemma hex_digit_low (b : ascii) :
  isLowerHex (hex.digit (Z.land (byteZ b) 0x0f)) = true.
Proof. bits b; vm_compute; reflexivity. Qed.

Lemma hex_digit_version (b : ascii) :
  hex.digit (Z.shiftr (byteZ (Zbyte (Z.lor (Z.land (byteZ b) 0x0f) 0x40))) 4)
  = "4"%char.
Proof. bits b; vm_compute; reflexivity. Qed.

Lemma hex_digit_variant (b : ascii) :
  isVariantHex
    (hex.digit (Z.shiftr (byteZ (Zbyte (Z.lor (Z.land (byteZ b) 0x3f) 0x80))) 4))
  = true.
Proof. bits b; vm_compute; reflexivity. Qed.

(** The bits of the sixteen random bytes that reach the UUID: all but
    the high four of byte 6 and the high two of byte 8 (122 of 128). *)
Lemma version_keeps_low_bits (b : ascii) :
  Z.land (byteZ (Zbyte (Z.lor (Z.land (byteZ b) 0x0f) 0x40))) 0x0f
  = Z.land (byteZ b) 0x0f.
Proof. bits b; vm_compute; reflexivity. Qed.

Lemma variant_keeps_low_bits (b : ascii) :
  Z.land (byteZ (Zbyte (Z.lor (Z.land (byteZ b) 0x3f) 0x80))) 0x3f
  = Z.land (byteZ b) 0x3f.
Proof. bits b; vm_compute; reflexivity. Qed.

Lemma NewRandomFromReader_enough (r : list ascii) :
  (16 <= length r)%nat ->
  exists u, uuid.NewRandomFromReader r = (inr u, drop 16 r)
    /\ length u = 16%nat
    /\ (forall i, i ≠ 6%nat -> i ≠ 8%nat -> u !! i = take 16 r !! i)
    /\ isUUIDv4Text (uuid.String u) = true
    /\ String.length (uuid.String u) = 36%nat.
Proof.
  intros Hlen.
  do 16 (destruct r as [|? r]; [simpl in Hlen; lia|]). clear Hlen.
  eexists. split; [reflexivity|]. split; [reflexivity|].
  split; [|split; [|reflexivity]].
  - intros i H6 H8. do 9 (destruct i as [|i]; [done|]). reflexivity.
  - lazy beta iota zeta delta
      [uuid.String uuid.encodeHex hex.Encode String.append matchesPattern
       matchesAt isUUIDv4Text take drop alter list_alter].
    rewrite !hex_digit_high, !hex_digit_low, hex_digit_version, hex_digit_variant.
    reflexivity.
Qed.

Lemma NewRandomFromReader_short (r : list ascii) :
  (length r < 16)%nat ->
  exists err, uuid.NewRandomFromReader r = (inl err, []).
Proof.
  intros Hlen. unfold uuid.NewRandomFromReader, io.ReadFull.
  destruct (Nat.leb_spec 16 (length r)); [lia|]. by eexists.
Qed.

(** Without sixteen bytes of entropy [uuid.New] panics, and so does
    [defaultIdempotencyKey] on the empty key. *)
Lemma defaultIdempotencyKey_no_entropy w :
  (length (entropy w) < 16)%nat ->
  exists msg, fst (defaultIdempotencyKey "" w) = Panic msg.
Proof.
  intros Hlen. destruct (NewRandomFromReader_short _ Hlen) as [err Herr].
  unfold defaultIdempotencyKey.
  destruct (decide ("" = "")) as [_|Hne]; [|done].
  unfold bind, New. rewrite Herr. by eexists.
Qed.

(** ** The Event Preparer *)

(** Merging a map without entries changes nothing but the seed used. *)
Lemma merge_empty w m g :
  contents w g = ∅ -> merge m g w = (Done tt, set_seeds (tl (seeds w)) w).
Proof.
  intros Hg. destruct (maprange_spec g w) as (kvs & Hrange & Hp & _).
  unfold merge. rewrite (bind_Done _ _ _ _ _ Hrange).
  by rewrite (proj2 (range_nothing_iff g w kvs Hp) Hg).
Qed.

(** C6. Preparing an event that is already populated (a timestamp other
    than the zero one, a non-empty idempotency key, metadata of at most
    50 keys of at most 40 bytes each) with global metadata that has no
    entry returns no error and the event as it was: same timestamp, same
    idempotency key, same metadata map holding what it held; the clock
    and the random source are not consulted. *)
Theorem prepare_populated w (e : Event) g :
  Event.OccurredAt e ≠ time.zero ->
  Event.IdempotencyKey e ≠ "" ->
  (size (contents w (Event.Metadata e)) <= 50)%nat ->
  (forall k, k ∈ dom (contents w (Event.Metadata e)) -> len k <= 40) ->
  contents w g = ∅ ->
  exists w',
    prepare unicodePrint e g w = (Done (inr e), w')
    /\ contents w' (Event.Metadata e) = contents w (Event.Metadata e)
    /\ heap w' = heap w /\ clock w' = clock w /\ entropy w' = entropy w.
Proof.
  intros Htime Hkey Hn Hall Hg.
  exists (set_seeds (tl (tl (seeds w))) w).
  split; [|by destruct (Event.Metadata e)].
  unfold prepare.
  assert (defaultTime (Event.OccurredAt e) w = (Done (Event.OccurredAt e), w)) as Ht.
  { unfold defaultTime. by destruct (decide (Event.OccurredAt e = time.zero)). }
  rewrite (bind_Done _ _ _ _ _ Ht).
  assert (defaultIdempotencyKey (Event.IdempotencyKey e) w
          = (Done (Event.IdempotencyKey e), w)) as Hk.
  { unfold defaultIdempotencyKey. by destruct (decide (Event.IdempotencyKey e = "")). }
  rewrite (bind_Done _ _ _ _ _ Hk).
  rewrite (bind_Done _ _ _ _ _ (merge_empty w (Event.Metadata e) g Hg)).
  set (w1 := set_seeds (tl (seeds w)) w).
  assert (validate unicodePrint (Event.Metadata e) w1
          = (Done None, set_seeds (tl (seeds w1)) w1)) as Hv.
  { apply validate_ok; unfold w1; by rewrite contents_set_seeds. }
  rewrite (bind_Done _ _ _ _ _ Hv).
  unfold ret. by destruct e.
Qed.

(** ** Checking a given map *)

Lemma keys_short_check (c : gmap string V) :
  forallb (fun kv => len kv.1 <=? 40) (map_to_list c) = true ->
  forall k, k ∈ dom c -> len k <= 40.
Proof.
  intros Hall k [v Hv]%elem_of_dom.
  rewrite forallb_forall in Hall.
  specialize (Hall (k, v)). cbn [fst] in Hall. apply Z.leb_le, Hall.
  apply list_elem_of_In. by apply elem_of_map_to_list.
Qed.

Lemma key_present_check (c : gmap string V) k :
  bool_decide (is_Some (c !! k)) = true -> k ∈ dom c.
Proof. intros Hk%bool_decide_eq_true. by apply elem_of_dom. Qed.

End properties.

(** ** The List Parameter Normalizer *)

(** C1. [GetLimit] returns 10 for a limit of 0 or less, 1000 for a
    limit above 1000, and the limit itself otherwise; it agrees with the
    spec's clamp wording; and the five cases of the test table hold:
    1 gives 1, -1 gives 10, 0 gives 10, 1001 gives 1000, 100 gives 100. *)
Theorem GetLimit_table (L : Z) :
  (L <= 0 -> GetLimit (mkListRequestParams L) = 10)
  /\ (L > 1000 -> GetLimit (mkListRequestParams L) = 1000)
  /\ (0 < L <= 1000 -> GetLimit (mkListRequestParams L) = L)
  /\ GetLimit (mkListRequestParams L) = clampLimit L
  /\ GetLimit (mkListRequestParams 1) = 1
  /\ GetLimit (mkListRequestParams (-1)) = 10
  /\ GetLimit (mkListRequestParams 0) = 10
  /\ GetLimit (mkListRequestParams 1001) = 1000
  /\ GetLimit (mkListRequestParams 100) = 100
  /\ TestEventsRequestParamsLimit = true.
Proof.
  unfold GetLimit, clampLimit. cbn [Limit].
  destruct (Z.leb_spec L 0) as [Hle|Hgt].
  - repeat split; try reflexivity; intros; lia.
  - destruct (Z.gtb_spec L 1000) as [Hbig|Hsmall].
    + repeat split; try reflexivity; intros; lia.
    + repeat split; try reflexivity; intros; lia.
Qed.

(** ** The properties at work on the sample world *)

Lemma GetLimit_table_witness :
  GetLimit (mkListRequestParams (-7)) = 10
  /\ GetLimit (mkListRequestParams 5000) = 1000
  /\ GetLimit (mkListRequestParams 250) = 250.
Proof.
  split; [|split].
  - apply (proj1 (GetLimit_table (-7))). lia.
  - apply (proj1 (proj2 (GetLimit_table 5000))). lia.
  - apply (proj1 (proj2 (proj2 (GetLimit_table 250)))). lia.
Defined.

(** The spec's example: the event has [a = 1], the global metadata
    [a = 2] and [b = 3]; after the merge the event has [a = 1] and
    [b = 3]. *)
Lemma merge_event_keys_win_witness :
  exists w',
    merge (Some eventMap) (Some globalMap) sampleWorld = (Done tt, w')
    /\ contents w' (Some eventMap) !! "a" = Some 1
    /\ contents w' (Some eventMap) !! "b" = Some 3
    /\ contents w' (Some eventMap) !! "c" = None.
Proof.
  destruct (merge_event_keys_win sampleWorld (Some eventMap) (Some globalMap))
    as (w' & Hrun & Hkeep & Hadd & Hnone).
  { left. discriminate. }
  exists w'. split; [exact Hrun|]. split; [|split].
  - apply Hkeep. reflexivity.
  - apply Hadd; reflexivity.
  - apply Hnone; reflexivity.
Defined.

(** C2 as it was stated fails on the [nil] map, the value of
    [Event.Metadata] in an event that sets none: with the global
    metadata [a = 2], [b = 3], [merge] panics; the key [b], which the
    global metadata holds and the event's does not, is not added, and
    there is no merged map. *)
Lemma merge_nil_receiver_counterexample :
  contents sampleWorld None !! "b" = None
  /\ contents sampleWorld (Some globalMap) !! "b" = Some 3
  /\ fst (merge None (Some globalMap) sampleWorld)
     = Panic "assignment to entry in nil map"
  /\ contents (snd (merge None (Some globalMap) sampleWorld)) None !! "b" = None.
Proof. repeat split. Qed.

Lemma validate_errors_witness :
  fst (validate sampleTable (Some map51) sampleWorld)
  = Done (Some errTooMuchMetadataKeys)
  /\ (exists k', k' ∈ dom (contents sampleWorld (Some longKeyMap)) /\ 40 < len k'
        /\ fst (validate sampleTable (Some longKeyMap) sampleWorld)
           = Done (Some (errorString (keyTooLongMessage sampleTable k'))))
  /\ fst (validate sampleTable (Some map50) sampleWorld) = Done None.
Proof.
  split; [|split].
  - destruct (validate_errors sampleTable sampleWorld (Some map51)) as (_ & H51 & _).
    apply H51. reflexivity.
  - destruct (validate_errors sampleTable sampleWorld (Some longKeyMap))
      as (_ & _ & H41 & _).
    apply H41.
    + vm_compute. lia.
    + exists key41. split; [|reflexivity].
      apply key_present_check. reflexivity.
  - destruct (validate_errors sampleTable sampleWorld (Some map50)) as (_ & _ & _ & H50).
    apply H50; [reflexivity|].
    apply keys_short_check. reflexivity.
Defined.

Lemma defaultTime_spec_witness :
  defaultTime time.zero sampleWorld
  = (Done (time.mkTime 123456789 63908976588 None), sampleWorld)
  /\ defaultTime (time.mkTime 0 0 (Some time.localLoc)) sampleWorld
     = (Done (time.mkTime 0 0 (Some time.localLoc)), sampleWorld).
Proof.
  split.
  - destruct (proj1 (defaultTime_spec sampleWorld time.zero) eq_refl) as [Hrun _].
    exact Hrun.
  - apply (proj2 (defaultTime_spec sampleWorld (time.mkTime 0 0 (Some time.localLoc)))).
    discriminate.
Defined.

Lemma prepare_populated_witness :
  exists w',
    prepare sampleTable sampleEvent (Some emptyMap) sampleWorld
    = (Done (inr sampleEvent), w')
    /\ contents w' (Event.Metadata sampleEvent)
       = contents sampleWorld (Event.Metadata sampleEvent)
    /\ heap w' = heap sampleWorld /\ clock w' = clock sampleWorld
    /\ entropy w' = entropy sampleWorld.
Proof.
  apply (prepare_populated sampleTable sampleWorld sampleEvent (Some emptyMap)).
  - discriminate.
  - discriminate.
  - vm_compute. lia.
  - apply keys_short_check. reflexivity.
  - reflexivity.
Defined.

(** The single key of the map is plain, so the message holds it byte
    for byte; its length is written [41]. *)
Lemma key_too_long_message_witness :
  fst (validate sampleTable (Some longKeyMap) sampleWorld)
  = Done (Some (errorString
                  ("metadata key " ++
                   String dquote (key41 ++
                   String dquote " exceed 40 characters: 41"))))
  /\ exists msg,
       fst (validate sampleTable (Some longKeyMap) sampleWorld)
       = Done (Some (errorString msg))
       /\ exists k,
            k ∈ dom (contents sampleWorld (Some longKeyMap)) /\ 40 < len k
            /\ msg = "metadata key " ++ strconv.Quote sampleTable k ++
                     " exceed 40 characters: " ++ strconv.FormatInt (len k)
            /\ decimalValue (strconv.FormatInt (len k)) = Some (len k)
            /\ includes (strconv.Quote sampleTable k) msg
            /\ includes (strconv.FormatInt (len k)) msg
            /\ (plainString k = true ->
                strconv.Quote sampleTable k = String dquote (k ++ String dquote "")
                /\ includes k msg).
Proof.
  split; [reflexivity|].
  destruct (key_too_long_message sampleTable sampleWorld (Some longKeyMap))
    as [Hshape Hraised].
  destruct Hraised as [msg Hmsg].
  - vm_compute. lia.
  - exists key41. split; [|reflexivity].
    apply key_present_check. reflexivity.
  - exists msg. split; [exact Hmsg|]. apply Hshape. exact Hmsg.
Defined.

Lemma merge_nil_panics_witness :
  merge None (Some globalMap) sampleWorld
  = (Panic "assignment to entry in nil map",
     set_seeds (tl (seeds sampleWorld)) sampleWorld)
  /\ exists w', merge None (Some emptyMap) sampleWorld = (Done tt, w').
Proof.
  split.
  - apply (proj1 (merge_nil_panics sampleWorld None (Some globalMap))).
    split; [reflexivity|]. intros Hempty.
    apply (f_equal (fun c => c !! "a")) in Hempty. discriminate Hempty.
  - apply (proj2 (merge_nil_panics sampleWorld None (Some emptyMap))).
    right. reflexivity.
Defined.

(** 21 runes, 42 bytes: the key is refused. *)
Lemma key_length_in_bytes_witness :
  utf8.RuneCountInString keyAccents = 21
  /\ len keyAccents = 42
  /\ fst (validate sampleTable (Some accentsMap) sampleWorld)
     = Done (Some (errorString (keyTooLongMessage sampleTable keyAccents))).
Proof.
  split; [reflexivity|]. split; [reflexivity|].
  apply (key_length_in_bytes sampleTable keyAccents); reflexivity.
Defined.

Lemma merge_leaves_other_witness :
  contents (snd (merge (Some eventMap) (Some globalMap) sampleWorld)) (Some globalMap)
  = contents sampleWorld (Some globalMap)
  /\ contents (snd (merge (Some globalMap) (Some globalMap) sampleWorld)) (Some globalMap)
     = contents sampleWorld (Some globalMap)
  /\ contents (snd (merge None (Some globalMap) sampleWorld)) (Some globalMap)
     = contents sampleWorld (Some globalMap).
Proof.
  split; [|split].
  - apply (proj1 (merge_leaves_other sampleWorld (Some eventMap) (Some globalMap))).
  - apply (proj1 (merge_leaves_other sampleWorld (Some globalMap) (Some globalMap))).
  - apply (proj1 (merge_leaves_other sampleWorld None (Some globalMap))).
Defined.

(** * Further properties of the package *)

Section coverage.

Context {V : Type}.
Variable unicodePrint : Z -> bool.

Implicit Types (w : World V) (m other g : Metadata) (k : string) (v : V).

(** ** [merge]: order, repetition, frame *)

Lemma union_absorb (c d : gmap string V) : (c ∪ d) ∪ d = c ∪ d.
Proof. by rewrite <- (assoc_L (∪)), map_union_idemp. Qed.

Lemma union_absorb_l (c d : gmap string V) : (c ∪ d) ∪ c = c ∪ d.
Proof.
  apply map_eq. intros j. rewrite !lookup_union.
  by destruct (c !! j), (d !! j).
Qed.

(** What [merge] on a map object leaves in it and in the others. *)
Lemma merge_Some_receiver (l : ref) g w :
  contents (snd (merge (Some l) g w)) (Some l)
  = contents w (Some l) ∪ contents w g.
Proof. by destruct (merge_Some l g w) as (w' & -> & Hc & _). Qed.

Lemma merge_Some_other (l : ref) g w m' :
  m' ≠ Some l -> contents (snd (merge (Some l) g w)) m' = contents w m'.
Proof.
  intros Hne. destruct (merge_Some l g w) as (w' & -> & _ & Hframe & _).
  cbn [snd]. destruct m' as [l'|]; [|reflexivity]. simpl. apply Hframe. congruence.
Qed.

Lemma merge_nil_contents g w m' :
  contents (snd (merge None g w)) m' = contents w m'.
Proof. rewrite merge_nil. cbn [snd]. apply contents_set_seeds. Qed.

Lemma merge_ends (l : ref) g w : fst (merge (Some l) g w) = Done tt.
Proof. destruct (merge_Some l g w) as (w' & -> & _). reflexivity. Qed.

(** X1. The outcome of [merge] does not depend on the order in which
    the runtime ranges over [other]: in two worlds that differ only by
    their iteration seeds, [merge] ends the same way (normally, or with
    the same panic) and leaves the same entries in every map. *)
Theorem merge_order_irrelevant w m g (s1 s2 : list (list nat)) :
  fst (merge m g (set_seeds s1 w)) = fst (merge m g (set_seeds s2 w))
  /\ forall m', contents (snd (merge m g (set_seeds s1 w))) m'
               = contents (snd (merge m g (set_seeds s2 w))) m'.
Proof.
  destruct m as [l|].
  - split; [by rewrite !merge_ends|]. intros m'.
    destruct (decide (m' = Some l)) as [->|Hne].
    + by rewrite !merge_Some_receiver, !contents_set_seeds.
    + by rewrite !merge_Some_other, !contents_set_seeds.
  - split.
    + rewrite !merge_nil. cbn [fst]. by rewrite !contents_set_seeds.
    + intros m'. rewrite !merge_nil_contents. by rewrite !contents_set_seeds.
Qed.

(** X2. Merging the same [other] a second time changes nothing: it ends
    as the first merge did and every map holds what it held after the
    first merge. *)
Theorem merge_twice w m g :
  fst (merge m g (snd (merge m g w))) = fst (merge m g w)
  /\ forall m', contents (snd (merge m g (snd (merge m g w)))) m'
               = contents (snd (merge m g w)) m'.
Proof.
  destruct m as [l|].
  - split; [by rewrite !merge_ends|]. intros m'.
    destruct (decide (m' = Some l)) as [->|Hne]; [|by rewrite merge_Some_other].
    rewrite merge_Some_receiver.
    destruct (decide (g = Some l)) as [->|Hg].
    + by rewrite map_union_idemp.
    + rewrite (merge_Some_other l g w g Hg), merge_Some_receiver.
      apply union_absorb.
  - split.
    + rewrite (merge_nil g (snd (merge None g w))). cbn [fst].
      rewrite merge_nil_contents. by rewrite merge_nil.
    + intros m'. by rewrite !merge_nil_contents.
Qed.

(** X3. After [merge] on a map object, its keys are the keys it had
    together with those of [other], so it has at least as many entries
    as either map had and at most as many as both together. *)
Theorem merge_keys w (l : ref) g :
  let after := contents (snd (merge (Some l) g w)) (Some l) in
  dom after = dom (contents w (Some l)) ∪ dom (contents w g)
  /\ (size (contents w (Some l)) <= size after)%nat
  /\ (size (contents w g) <= size after)%nat
  /\ (size after <= size (contents w (Some l)) + size (contents w g))%nat.
Proof.
  intros after. subst after. rewrite merge_Some_receiver.
  set (c := contents w (Some l)). set (d := contents w g).
  assert (dom (c ∪ d) = dom c ∪ dom d) as Hdom by apply dom_union_L.
  split; [exact Hdom|].
  rewrite <- !size_dom, Hdom.
  split; [apply subseteq_size, union_subseteq_l|].
  split; [apply subseteq_size, union_subseteq_r|].
  rewrite size_union_alt.
  pose proof (subseteq_size (dom d ∖ dom c) (dom d)
                (subseteq_difference_l _ _ _ (reflexivity _))).
  lia.
Qed.

(** X4. [merge] assigns to its receiver only: every other map object,
    the clock and the random source are as they were, and one iteration
    seed is used.  When receiver and argument are the same map, no map
    changes at all; and when the argument has no entry ([nil] or empty),
    [merge] ends normally on every receiver, the [nil] one included, and
    the heap is the very same. *)
Theorem merge_changes_only_receiver w m g :
  (forall m', m' ≠ m -> contents (snd (merge m g w)) m' = contents w m')
  /\ clock (snd (merge m g w)) = clock w
  /\ entropy (snd (merge m g w)) = entropy w
  /\ seeds (snd (merge m g w)) = tl (seeds w)
  /\ (g = m -> forall m', contents (snd (merge m g w)) m' = contents w m')
  /\ (contents w g = ∅ ->
      fst (merge m g w) = Done tt /\ heap (snd (merge m g w)) = heap w).
Proof.
  assert (contents w g = ∅ ->
          fst (merge m g w) = Done tt /\ heap (snd (merge m g w)) = heap w) as Hnone.
  { intros Hg. by rewrite (merge_empty w m g Hg). }
  destruct m as [l|].
  - split; [|split; [|split; [|split; [|split]]]]; [| | | | |exact Hnone].
    + intros m' Hne. by apply merge_Some_other.
    + by destruct (merge_Some l g w) as (w' & -> & _ & _ & ? & _).
    + by destruct (merge_Some l g w) as (w' & -> & _ & _ & _ & ? & _).
    + by destruct (merge_Some l g w) as (w' & -> & _ & _ & _ & _ & ?).
    + intros -> m'. destruct (decide (m' = Some l)) as [->|Hne].
      * rewrite merge_Some_receiver. apply map_union_idemp.
      * by apply merge_Some_other.
  - split; [|split; [|split; [|split; [|split]]]]; [| | | | |exact Hnone];
      rewrite merge_nil; cbn [snd]; try reflexivity; intros; apply contents_set_seeds.
Qed.

(** X5. Two merges in a row into a map object: the object ends with
    its own entries, then those of the first argument for the keys it
    lacked, then those of the second for the keys still lacking.  So
    for a key both arguments hold and the object did not, the value of
    the first merge stays. *)
Theorem merge_then_merge w (l : ref) g1 g2 :
  let w2 := snd (merge (Some l) g2 (snd (merge (Some l) g1 w))) in
  contents w2 (Some l)
  = contents w (Some l) ∪ contents w g1 ∪ contents w g2
  /\ forall k v1 v2,
       contents w (Some l) !! k = None ->
       contents w g1 !! k = Some v1 -> contents w g2 !! k = Some v2 ->
       contents w2 (Some l) !! k = Some v1.
Proof.
  intros w2.
  assert (contents w2 (Some l)
          = contents w (Some l) ∪ contents w g1 ∪ contents w g2) as Heq.
  { subst w2. rewrite !merge_Some_receiver.
    destruct (decide (g2 = Some l)) as [->|Hg2].
    - by rewrite merge_Some_receiver, map_union_idemp, union_absorb_l.
    - by rewrite (merge_Some_other l g1 w g2 Hg2). }
  split; [exact Heq|]. intros k v1 v2 Hk H1 H2. rewrite Heq.
  apply lookup_union_Some_l. by rewrite lookup_union_r.
Qed.

(** ** [validate]: what decides its outcome *)

(** [validate] passes exactly the maps of at most 50 keys, none longer
    than 40. *)
Lemma validate_passes_iff m w :
  fst (validate unicodePrint m w) = Done None
  <-> (size (contents w m) <= 50)%nat
      /\ forall k, k ∈ dom (contents w m) -> len k <= 40.
Proof.
  split.
  - rewrite validate_run.
    destruct (Z.ltb_spec 50 (Z.of_nat (size (contents w m)))) as [Hn|Hn];
      [discriminate|].
    cbn [fst]. intros [= Hloop]. split; [lia|]. intros k Hk.
    apply (proj1 (validate_loop_None unicodePrint _) Hloop).
    eapply range_keys; [apply rangeOrder_perm|exact Hk].
  - intros [Hn Hall]. by rewrite validate_ok.
Qed.

(** [validate] returns [errTooMuchMetadataKeys] exactly on the maps of
    more than 50 keys. *)
Lemma validate_too_many_iff m w :
  fst (validate unicodePrint m w) = Done (Some errTooMuchMetadataKeys)
  <-> (50 < size (contents w m))%nat.
Proof.
  split.
  - rewrite validate_run.
    destruct (Z.ltb_spec 50 (Z.of_nat (size (contents w m)))) as [Hn|Hn]; [lia|].
    cbn [fst]. intros [= Hloop].
    apply validate_loop_Some in Hloop as (k & _ & _ & Hk). discriminate Hk.
  - intros Hn. by rewrite validate_too_many.
Qed.

(** X6. Which over-long key the error of [validate] names is a matter
    of iteration order: for every key longer than 40 of a map within the
    count there is an order of the range (a world that differs by its
    next seed only) in which the error is the one about that key.  When
    the map has a single over-long key, the error names it in every
    order. *)
Theorem validate_names_any_long_key w m k :
  (size (contents w m) <= 50)%nat ->
  k ∈ dom (contents w m) ->
  40 < len k ->
  (exists seed,
     fst (validate unicodePrint m (set_seeds (seed :: seeds w) w))
     = Done (Some (errorString (keyTooLongMessage unicodePrint k))))
  /\ ((forall k', k' ∈ dom (contents w m) -> 40 < len k' -> k' = k) ->
      fst (validate unicodePrint m w)
      = Done (Some (errorString (keyTooLongMessage unicodePrint k)))).
Proof.
  intros Hn Hk Hlong. split.
  - apply elem_of_dom in Hk as [v Hv].
    apply elem_of_map_to_list in Hv.
    apply elem_of_Permutation in Hv as [rest Hrest].
    destruct (rangeOrder_complete (map_to_list (contents w m)) ((k, v) :: rest))
      as [seed Hseed]; [by symmetry|].
    exists seed. rewrite validate_run, contents_set_seeds.
    destruct (Z.ltb_spec 50 (Z.of_nat (size (contents w m)))); [lia|].
    cbn [fst seeds set_seeds hd]. rewrite Hseed. cbn [fmap list_fmap fst validate_loop].
    destruct (Z.gtb_spec (len k) 40); [|lia].
    by rewrite Errorf_key_too_long.
  - intros Honly.
    destruct (validate_key_too_long unicodePrint m w Hn) as (k' & Hk' & Hlong' & ->).
    { by exists k. }
    by rewrite (Honly k' Hk' Hlong').
Qed.

(** X7. Only the keys matter to [validate], and fewer keys never hurt:
    if a map passes, every map whose keys are among its keys passes
    too, whatever the values. *)
Theorem validate_fewer_keys w w' m m' :
  dom (contents w' m') ⊆ dom (contents w m) ->
  fst (validate unicodePrint m w) = Done None ->
  fst (validate unicodePrint m' w') = Done None.
Proof.
  intros Hsub [Hn Hall]%validate_passes_iff. apply validate_passes_iff. split.
  - apply subseteq_size in Hsub. rewrite !size_dom in Hsub. lia.
  - intros k Hk. apply Hall, Hsub, Hk.
Qed.

(** X8. [validate] after [merge] judges the keys of both maps together.
    The merged map passes exactly when the event's keys and the global
    keys are at most 50 in all and none is longer than 40; it fails
    with [errTooMuchMetadataKeys] exactly when they are more than 50 in
    all, also when each map alone is within the count.  If the merged
    map passes, the event's map and the global map each passed before
    the merge. *)
Theorem merge_then_validate w (l : ref) g :
  let w1 := snd (merge (Some l) g w) in
  let keys := dom (contents w (Some l)) ∪ dom (contents w g) in
  (fst (validate unicodePrint (Some l) w1) = Done None
   <-> (size keys <= 50)%nat /\ forall k, k ∈ keys -> len k <= 40)
  /\ (fst (validate unicodePrint (Some l) w1) = Done (Some errTooMuchMetadataKeys)
      <-> (50 < size keys)%nat)
  /\ (fst (validate unicodePrint (Some l) w1) = Done None ->
      fst (validate unicodePrint (Some l) w) = Done None
      /\ fst (validate unicodePrint g w) = Done None).
Proof.
  intros w1 keys.
  assert (dom (contents w1 (Some l)) = keys) as Hdom.
  { unfold w1, keys. rewrite merge_Some_receiver. apply dom_union_L. }
  split; [|split].
  - rewrite validate_passes_iff, <- size_dom, Hdom. reflexivity.
  - rewrite validate_too_many_iff, <- size_dom, Hdom. reflexivity.
  - rewrite validate_passes_iff, <- size_dom, Hdom. intros [Hn Hall].
    split; apply validate_passes_iff; rewrite <- size_dom.
    + split.
      * pose proof (subseteq_size _ keys (union_subseteq_l (dom (contents w (Some l)))
                                           (dom (contents w g)))). lia.
      * intros k Hk. apply Hall, elem_of_union. by left.
    + split.
      * pose proof (subseteq_size _ keys (union_subseteq_r (dom (contents w (Some l)))
                                           (dom (contents w g)))). lia.
      * intros k Hk. apply Hall, elem_of_union. by right.
Qed.

(** ** [defaultTime]: the timestamp is set *)

(** X9. When the clock does not read the zero instant, the timestamp
    [defaultTime] returns is never the zero timestamp [time.Time{}]:
    it is the caller's own, or, for the zero timestamp, a reading of
    the clock that is not the zero instant. *)
Theorem defaultTime_is_set w (t : time.Time) :
  time.IsZero (clock w) = false ->
  exists t',
    defaultTime t w = (Done t', w)
    /\ t' ≠ time.zero
    /\ (t = time.zero -> time.IsZero t' = false).
Proof.
  intros Hclock. unfold defaultTime.
  destruct (decide (t = time.zero)) as [->|Hne].
  - exists (time.UTC (clock w)).
    assert (time.IsZero (time.UTC (clock w)) = false) as Hutc.
    { unfold time.IsZero in *. by rewrite UTC_sec, UTC_nsec. }
    split; [reflexivity|]. split; [|done].
    intros Hzero. by rewrite Hzero in Hutc.
  - exists t. split; [reflexivity|]. split; [exact Hne|done].
Qed.

(** ** [defaultIdempotencyKey]: outcome and randomness *)

Lemma defaultIdempotencyKey_run w (key : string) :
  defaultIdempotencyKey key w =
  if decide (key = "") then
    match uuid.NewRandomFromReader (entropy w) with
    | (inr u, r) => (Done (uuid.String u), set_entropy r w)
    | (inl err, r) => (Panic (Error err), set_entropy r w)
    end
  else (Done key, w).
Proof.
  unfold defaultIdempotencyKey. destruct (decide (key = "")); [|reflexivity].
  unfold bind, New. by destruct (uuid.NewRandomFromReader (entropy w)) as [[err|u] r].
Qed.

(** X10. [defaultIdempotencyKey] panics exactly when the key is empty
    and the random source has fewer than sixteen bytes left; whenever it
    returns, the key it returns is not empty, and applying it to that
    key gives the key back and reads no entropy. *)
Theorem defaultIdempotencyKey_outcome w (key : string) :
  ((exists msg, fst (defaultIdempotencyKey key w) = Panic msg)
   <-> key = "" /\ (length (entropy w) < 16)%nat)
  /\ forall s w1,
       defaultIdempotencyKey key w = (Done s, w1) ->
       s ≠ "" /\ defaultIdempotencyKey s w1 = (Done s, w1).
Proof.
  rewrite defaultIdempotencyKey_run.
  destruct (decide (key = "")) as [->|Hne].
  - destruct (le_lt_dec 16 (length (entropy w))) as [Hlen|Hlen].
    + destruct (NewRandomFromReader_enough _ Hlen) as (u & -> & _ & _ & _ & Hlen36).
      assert (uuid.String u ≠ "") as Hs by (intros Hs; by rewrite Hs in Hlen36).
      split.
      * split; [by intros [msg Hmsg]|]. intros [_ ?]. lia.
      * intros s w1 [= <- <-]. split; [exact Hs|].
        rewrite defaultIdempotencyKey_run. by destruct (decide (uuid.String u = "")).
    + destruct (NewRandomFromReader_short _ Hlen) as [err ->]. split.
      * split; [done|]. intros _. by eexists.
      * intros s w1 [=].
  - split.
    + split; [by intros [msg Hmsg]|]. by intros [? _].
    + intros s w1 [= <- <-]. split; [exact Hne|].
      rewrite defaultIdempotencyKey_run. by destruct (decide (key = "")).
Qed.

Lemma byteZ_Zbyte (z : Z) : 0 <= z < 256 -> byteZ (Zbyte z) = z.
Proof.
  intros Hz. unfold byteZ, Zbyte. rewrite Z.mod_small by lia.
  rewrite N_ascii_embedding; lia.
Qed.

(** [hex.Encode] loses nothing: the two digits tell the byte. *)
Lemma hex_digit_inj (i j : Z) :
  0 <= i < 16 -> 0 <= j < 16 -> hex.digit i = hex.digit j -> i = j.
Proof.
  intros Hi Hj.
  assert (exists n, i = Z.of_nat n /\ (n < 16)%nat) as (n & -> & Hn)
    by (exists (Z.to_nat i); lia).
  assert (exists n', j = Z.of_nat n' /\ (n' < 16)%nat) as (n' & -> & Hn')
    by (exists (Z.to_nat j); lia).
  do 16 (destruct n as [|n];
         [do 16 (destruct n' as [|n'];
                 [vm_compute; intros He; first [reflexivity|discriminate He]|]);
          lia|]).
  lia.
Qed.

Lemma byte_halves (b : ascii) :
  0 <= Z.shiftr (byteZ b) 4 < 16 /\ 0 <= Z.land (byteZ b) 0x0f < 16
  /\ byteZ b = 16 * Z.shiftr (byteZ b) 4 + Z.land (byteZ b) 0x0f.
Proof.
  pose proof (byteZ_range b) as Hb.
  rewrite Z.shiftr_div_pow2 by lia.
  change 0x0f with (Z.ones 4). rewrite Z.land_ones by lia.
  change (2 ^ 4) with 16.
  pose proof (Z.div_mod (byteZ b) 16 ltac:(lia)).
  pose proof (Z.mod_pos_bound (byteZ b) 16 ltac:(lia)).
  assert (0 <= byteZ b / 16 < 16)
    by (split; [apply Z.div_pos; lia|apply Z.div_lt_upper_bound; lia]).
  lia.
Qed.

Lemma hex_pair_inj (b b' : ascii) :
  hex.digit (Z.shiftr (byteZ b) 4) = hex.digit (Z.shiftr (byteZ b') 4) ->
  hex.digit (Z.land (byteZ b) 0x0f) = hex.digit (Z.land (byteZ b') 0x0f) ->
  b = b'.
Proof.
  intros Hh Hl.
  destruct (byte_halves b) as (H1 & H2 & H3), (byte_halves b') as (H1' & H2' & H3').
  apply hex_digit_inj in Hh; [|done..]. apply hex_digit_inj in Hl; [|done..].
  rewrite <- (Zbyte_byteZ b), <- (Zbyte_byteZ b'). f_equal. lia.
Qed.

Lemma six_bits (b : ascii) : 0 <= Z.land (byteZ b) 0x3f < 64.
Proof.
  pose proof (byteZ_range b). change 0x3f with (Z.ones 6).
  rewrite Z.land_ones by lia. apply Z.mod_pos_bound. lia.
Qed.

(** Setting the version, or the variant, forgets the bits it overwrites
    and no other. *)
Lemma version_byte_eq (b b' : ascii) :
  Zbyte (Z.lor (Z.land (byteZ b) 0x0f) 0x40)
  = Zbyte (Z.lor (Z.land (byteZ b') 0x0f) 0x40)
  <-> Zbyte (Z.land (byteZ b) 0x0f) = Zbyte (Z.land (byteZ b') 0x0f).
Proof.
  split.
  - intros He. rewrite <- (version_keeps_low_bits b), <- (version_keeps_low_bits b').
    by rewrite He.
  - intros He. apply (f_equal byteZ) in He.
    destruct (byte_halves b) as (_ & ? & _), (byte_halves b') as (_ & ? & _).
    rewrite !byteZ_Zbyte in He by lia. by rewrite He.
Qed.

Lemma variant_byte_eq (b b' : ascii) :
  Zbyte (Z.lor (Z.land (byteZ b) 0x3f) 0x80)
  = Zbyte (Z.lor (Z.land (byteZ b') 0x3f) 0x80)
  <-> Zbyte (Z.land (byteZ b) 0x3f) = Zbyte (Z.land (byteZ b') 0x3f).
Proof.
  split.
  - intros He. rewrite <- (variant_keeps_low_bits b), <- (variant_keeps_low_bits b').
    by rewrite He.
  - intros He. apply (f_equal byteZ) in He.
    pose proof (six_bits b). pose proof (six_bits b').
    rewrite !byteZ_Zbyte in He by lia. by rewrite He.
Qed.

Local Ltac string_inj H :=
  repeat (let Hc := fresh "Hc" in injection H as Hc H).

(** The text of the UUID made from sixteen random bytes tells their
    free bits, and nothing else of them. *)
Lemma String_free_bits (e e' : list ascii) (u u' : uuid.UUID) :
  (16 <= length e)%nat -> (16 <= length e')%nat ->
  fst (uuid.NewRandomFromReader e) = inr u ->
  fst (uuid.NewRandomFromReader e') = inr u' ->
  uuid.String u = uuid.String u' <-> freeBits e = freeBits e'.
Proof.
  intros Hlen Hlen'.
  do 16 (destruct e as [|? e]; [simpl in Hlen; lia|]). clear Hlen.
  do 16 (destruct e' as [|? e']; [simpl in Hlen'; lia|]). clear Hlen'.
  intros [= <-] [= <-].
  lazy beta iota zeta delta
    [freeBits uuid.String uuid.encodeHex hex.Encode String.append take drop
     alter list_alter].
  split.
  - intros H. string_inj H.
    repeat match goal with
    | Hh : hex.digit (Z.shiftr (byteZ ?b) 4) = hex.digit (Z.shiftr (byteZ ?b') 4),
      Hl : hex.digit (Z.land (byteZ ?b) _) = hex.digit (Z.land (byteZ ?b') _) |- _ =>
        pose proof (hex_pair_inj b b' Hh Hl); clear Hh Hl
    end.
    repeat match goal with
    | H : Zbyte (Z.lor (Z.land _ 15) 64) = _ |- _ => apply version_byte_eq in H
    | H : Zbyte (Z.lor (Z.land _ 63) 128) = _ |- _ => apply variant_byte_eq in H
    end.
    congruence.
  - intros H. injection H as -> -> -> -> -> -> H6 -> H8 -> -> -> -> -> -> ->.
    apply version_byte_eq in H6. apply variant_byte_eq in H8.
    by rewrite H6, H8.
Qed.

(** C5. [defaultIdempotencyKey] on the empty key, when the random
    source delivers its sixteen bytes, gives the text of a fresh
    version-4 UUID made of them: 36 bytes, hence not empty, in the five
    hexadecimal groups 8-4-4-4-12 with the version digit [4] and a
    variant digit among [8 9 a b]; and the text carries the 122 random
    bits that version and variant leave free, for it equals the key
    generated from any other sixteen random bytes exactly when the two
    supplies agree on those bits.  On a non-empty key it gives that key
    exactly and reads no entropy. *)
Theorem defaultIdempotencyKey_spec w (key : string) :
  (key = "" -> (16 <= length (entropy w))%nat ->
   exists s, defaultIdempotencyKey key w
             = (Done s, set_entropy (drop 16 (entropy w)) w)
     /\ s ≠ "" /\ len s = 36 /\ isUUIDv4Text s = true
     /\ forall w' s',
          (16 <= length (entropy w'))%nat ->
          fst (defaultIdempotencyKey "" w') = Done s' ->
          s = s' <-> freeBits (entropy w) = freeBits (entropy w'))
  /\ (key ≠ "" -> defaultIdempotencyKey key w = (Done key, w)).
Proof.
  split.
  - intros -> Hlen.
    destruct (NewRandomFromReader_enough _ Hlen) as (u & Hu & _ & _ & Htext & Hlen36).
    exists (uuid.String u). rewrite defaultIdempotencyKey_run.
    destruct (decide ("" = "")) as [_|Hne]; [|done].
    rewrite Hu. split; [reflexivity|].
    split; [intros Hs; by rewrite Hs in Hlen36|].
    split; [unfold len; by rewrite Hlen36|]. split; [exact Htext|].
    intros w' s' Hlen' Hs'.
    destruct (NewRandomFromReader_enough _ Hlen') as (u' & Hu' & _).
    rewrite defaultIdempotencyKey_run in Hs'.
    destruct (decide ("" = "")) as [_|Hne]; [|done].
    rewrite Hu' in Hs'. injection Hs' as <-.
    apply String_free_bits; [exact Hlen|exact Hlen'|by rewrite Hu|by rewrite Hu'].
  - intros Hne. rewrite defaultIdempotencyKey_run. by destruct (decide (key = "")).
Qed.

(** X11. The key [defaultIdempotencyKey] generates carries 122 random
    bits: two generated keys are equal exactly when the sixteen random
    bytes they were made from agree on every bit but the high four of
    byte 6 and the high two of byte 8, which the version and the variant
    overwrite. *)
Theorem generated_key_free_bits w w' :
  (16 <= length (entropy w))%nat ->
  (16 <= length (entropy w'))%nat ->
  exists s s',
    fst (defaultIdempotencyKey "" w) = Done s
    /\ fst (defaultIdempotencyKey "" w') = Done s'
    /\ (s = s' <-> freeBits (entropy w) = freeBits (entropy w')).
Proof.
  intros Hlen Hlen'.
  destruct (NewRandomFromReader_enough _ Hlen) as (u & Hu & _).
  destruct (NewRandomFromReader_enough _ Hlen') as (u' & Hu' & _).
  exists (uuid.String u), (uuid.String u').
  rewrite !defaultIdempotencyKey_run.
  destruct (decide ("" = "")) as [_|Hne]; [|done].
  rewrite Hu, Hu'. split; [reflexivity|]. split; [reflexivity|].
  apply String_free_bits; [exact Hlen|exact Hlen'|by rewrite Hu|by rewrite Hu'].
Qed.

(** ** The messages of [validate] are one line of visible bytes *)

Lemma visibleString_app (s t : string) :
  visibleString (s ++ t) = visibleString s && visibleString t.
Proof.
  induction s as [|c s IH]; [reflexivity|].
  rewrite append_cons. cbn [visibleString]. by rewrite IH, andb_assoc.
Qed.

Lemma byteZ_Zbyte_mod (z : Z) : byteZ (Zbyte z) = z mod 256.
Proof.
  unfold Zbyte. pose proof (Z.mod_pos_bound z 256 ltac:(lia)).
  unfold byteZ. rewrite N_ascii_embedding; lia.
Qed.

(** A byte whose bit 7 is set is visible: it is 128 or more. *)
Lemma high_bit_visible (z : Z) : Z.testbit z 7 = true -> visibleByte (Zbyte z) = true.
Proof.
  intros Hbit. unfold visibleByte. rewrite byteZ_Zbyte_mod.
  pose proof (Z.mod_pos_bound z 256 ltac:(lia)) as Hm.
  assert (Z.testbit (z mod 256) 7 = true) as Hbit'.
  { change 256 with (2 ^ 8). by rewrite Z.mod_pow2_bits_low by lia. }
  apply Z.testbit_true in Hbit'; [|lia]. change (2 ^ 7) with 128 in Hbit'.
  assert (128 <= z mod 256).
  { destruct (Z_lt_le_dec (z mod 256) 128) as [Hlt|]; [|done].
    rewrite Z.div_small in Hbit' by lia. discriminate Hbit'. }
  apply andb_true_intro. split; [lia|]. apply negb_true_iff. lia.
Qed.

Lemma lor_high_bit (a z : Z) : Z.testbit a 7 = true -> Z.testbit (Z.lor a z) 7 = true.
Proof. intros Ha. by rewrite Z.lor_spec, Ha. Qed.

Lemma hexdigit_visible (i : Z) : visibleByte (strconv.hexdigit i) = true.
Proof.
  unfold strconv.hexdigit. generalize (Z.to_nat i). intros n.
  do 17 (destruct n as [|n]; [reflexivity|]). reflexivity.
Qed.

Lemma hexrun_visible (r : Z) (n : nat) : visibleString (strconv.hexrun r n) = true.
Proof.
  induction n as [|n IH]; [reflexivity|].
  cbn [strconv.hexrun visibleString]. by rewrite hexdigit_visible, IH.
Qed.

(** The UTF-8 bytes of a rune [IsPrint] accepts are visible. *)
Lemma AppendRune_visible (r : Z) :
  strconv.IsPrint unicodePrint r = true -> visibleString (utf8.AppendRune r) = true.
Proof.
  intros Hp. unfold utf8.AppendRune.
  destruct ((0 <=? r) && (r <=? 0x7F)) eqn:H1.
  - apply andb_prop in H1 as [H0%Z.leb_le H1%Z.leb_le].
    assert (0x20 <= r <= 0x7E) as Hr.
    { unfold strconv.IsPrint in Hp.
      destruct (Z.leb_spec 0x20 r), (Z.leb_spec r 0x7E); try lia;
        destruct (Z.leb_spec r 0xFF), (Z.leb_spec 0xA1 r);
        simpl in Hp; first [discriminate Hp|lia]. }
    cbn [visibleString]. unfold visibleByte.
    rewrite byteZ_Zbyte_mod, Z.mod_small by lia.
    rewrite andb_true_r. apply andb_true_intro. split; [lia|].
    apply negb_true_iff. lia.
  - destruct ((0 <=? r) && (r <=? 0x7FF)).
    + cbn [visibleString]. by rewrite !high_bit_visible by (by apply lor_high_bit).
    + cbv zeta. destruct (_ <=? 0xFFFF); cbn [visibleString];
        by rewrite !high_bit_visible by (by apply lor_high_bit).
Qed.

Lemma appendEscapedRune_visible (r : Z) :
  visibleString (strconv.appendEscapedRune unicodePrint r) = true.
Proof.
  unfold strconv.appendEscapedRune.
  destruct ((r =? byteZ dquote) || (r =? byteZ backslash)) eqn:Hq.
  { apply orb_prop in Hq as [->%Z.eqb_eq| ->%Z.eqb_eq]; reflexivity. }
  destruct (strconv.IsPrint unicodePrint r) eqn:Hp; [by apply AppendRune_visible|].
  repeat (match goal with |- context [if ?c then _ else _] => destruct c end;
          [first [reflexivity
                 | rewrite visibleString_app; cbn [visibleString];
                   by rewrite ?hexdigit_visible, ?hexrun_visible]|]).
  rewrite visibleString_app. by rewrite hexrun_visible.
Qed.

Lemma quoteFrom_visible (s : string) (skip : nat) :
  visibleString (strconv.quoteFrom unicodePrint s skip) = true.
Proof.
  revert skip. induction s as [|c s IH]; intros skip; [reflexivity|].
  cbn [strconv.quoteFrom]. destruct skip as [|n]; [|apply IH].
  destruct (if byteZ c >=? utf8.RuneSelf then utf8.DecodeRuneInString (String c s)
            else (byteZ c, 1%nat)) as [r width].
  rewrite visibleString_app, IH, andb_true_r.
  destruct ((width =? 1)%nat && (r =? utf8.RuneError)).
  - rewrite visibleString_app. cbn [visibleString]. by rewrite !hexdigit_visible.
  - apply appendEscapedRune_visible.
Qed.

Lemma Quote_visible (s : string) : visibleString (strconv.Quote unicodePrint s) = true.
Proof.
  unfold strconv.Quote. cbn [visibleString].
  by rewrite visibleString_app, quoteFrom_visible.
Qed.

Lemma string_of_uint_visible (d : Decimal.uint) :
  visibleString (NilEmpty.string_of_uint d) = true.
Proof. induction d; cbn [NilEmpty.string_of_uint visibleString]; by rewrite ?IHd. Qed.

Lemma FormatInt_visible (i : Z) : visibleString (strconv.FormatInt i) = true.
Proof.
  unfold strconv.FormatInt, NilZero.string_of_int.
  destruct (Z.to_int i) as [d|d]; unfold NilZero.string_of_uint;
    destruct d; cbn [visibleString NilEmpty.string_of_uint];
    by rewrite ?string_of_uint_visible.
Qed.

(** X12. Whatever bytes the keys of a map hold (line feeds, other
    control characters, bytes that are not UTF-8), the message of every
    error [validate] returns is one line of visible bytes: it has no
    byte below [0x20] and no DEL. *)
Theorem validate_message_visible w m (e : error) :
  fst (validate unicodePrint m w) = Done (Some e) ->
  visibleString (Error e) = true.
Proof.
  rewrite validate_run.
  destruct (50 <? Z.of_nat (size (contents w m))).
  - intros [= <-]. reflexivity.
  - cbn [fst]. intros [= Hloop].
    apply validate_loop_Some in Hloop as (k & _ & _ & ->).
    cbn [Error]. unfold keyTooLongMessage.
    rewrite !visibleString_app, Quote_visible, FormatInt_visible. reflexivity.
Qed.

(** ** The package variables *)

Lemma SetAPIKey_fold (p : Package) (ks : list string) :
  let p' := foldl (fun p k => SetAPIKey k p) p ks in
  APIKey (DefaultClient p') = default (APIKey (DefaultClient p)) (last ks)
  /\ Endpoint (DefaultClient p') = Endpoint (DefaultClient p)
  /\ GlobalMetadata p' = GlobalMetadata p.
Proof.
  revert p. induction ks as [|k ks IH]; intros p; [done|].
  cbn [foldl]. destruct (IH (SetAPIKey k p)) as (Hkey & Hend & Hglobal).
  split; [|split]; [|exact Hend|exact Hglobal].
  rewrite Hkey. destruct ks as [|k' ks]; [reflexivity|].
  change (last (k :: k' :: ks)) with (last (k' :: ks)).
  destruct (last (k' :: ks)) eqn:Hlast; [reflexivity|].
  by apply last_None in Hlast.
Qed.

(** X13. After any sequence of calls of [SetAPIKey] on the package as it
    starts, the key of the default client is that of the last call (the
    environment's [WORKOS_API_KEY] when there was none), its endpoint is
    still [https://api.workos.com/events], and [GlobalMetadata] is still
    the [nil] map: merging it into any metadata, [nil] included, ends
    normally and changes no map. *)
Theorem SetAPIKey_sequence (getenv : string -> string) (ks : list string) :
  let p := foldl (fun p k => SetAPIKey k p) (initPackage getenv) ks in
  APIKey (DefaultClient p) = default (getenv "WORKOS_API_KEY") (last ks)
  /\ Endpoint (DefaultClient p) = "https://api.workos.com/events"
  /\ GlobalMetadata p = None
  /\ forall w m,
       fst (merge m (GlobalMetadata p) w) = Done tt
       /\ heap (snd (merge m (GlobalMetadata p) w)) = heap w.
Proof.
  intros p. destruct (SetAPIKey_fold (initPackage getenv) ks) as (Hkey & Hend & Hglobal).
  fold p in Hkey, Hend, Hglobal.
  cbn [initPackage GlobalMetadata] in Hglobal.
  split; [exact Hkey|]. split; [exact Hend|]. split; [exact Hglobal|].
  intros w m. rewrite Hglobal. by rewrite (merge_empty w m None eq_refl).
Qed.

End coverage.

(** ** The further properties at work on the sample worlds *)

(** The map has two over-long keys; each is the one named under some
    order of the range. *)
Lemma validate_names_any_long_key_witness :
  (exists seed,
     fst (validate sampleTable (Some twoLongMap)
            (set_seeds (seed :: seeds sampleWorld2) sampleWorld2))
     = Done (Some (errorString (keyTooLongMessage sampleTable key41))))
  /\ (exists seed,
        fst (validate sampleTable (Some twoLongMap)
               (set_seeds (seed :: seeds sampleWorld2) sampleWorld2))
        = Done (Some (errorString (keyTooLongMessage sampleTable keyAccents)))).
Proof.
  split.
  - apply (validate_names_any_long_key sampleTable sampleWorld2 (Some twoLongMap) key41).
    + vm_compute. lia.
    + apply key_present_check. reflexivity.
    + reflexivity.
  - apply (validate_names_any_long_key sampleTable sampleWorld2 (Some twoLongMap)
             keyAccents).
    + vm_compute. lia.
    + apply key_present_check. reflexivity.
    + reflexivity.
Defined.

(** The fifty numbered keys pass, so the first ten of them pass. *)
Lemma validate_fewer_keys_witness :
  fst (validate sampleTable (Some map10) sampleWorld2) = Done None.
Proof.
  apply (validate_fewer_keys sampleTable sampleWorld sampleWorld2 (Some map50)
           (Some map10)).
  - apply (bool_decide_eq_true_1
             (dom (contents sampleWorld2 (Some map10))
              ⊆ dom (contents sampleWorld (Some map50)))).
    reflexivity.
  - reflexivity.
Defined.

Lemma defaultTime_is_set_witness :
  exists t',
    defaultTime time.zero sampleWorld = (Done t', sampleWorld)
    /\ t' ≠ time.zero
    /\ (time.zero = time.zero -> time.IsZero t' = false).
Proof. apply (defaultTime_is_set sampleWorld time.zero). reflexivity. Defined.

(** The two random supplies differ in the high bits of bytes 6 and 8
    only, and give the same key. *)
Lemma generated_key_free_bits_witness :
  (take 16 (entropy sampleWorld) = take 16 (entropy sampleWorld2) -> False)
  /\ fst (defaultIdempotencyKey "" sampleWorld)
     = fst (defaultIdempotencyKey "" sampleWorld2).
Proof.
  split; [discriminate|].
  destruct (generated_key_free_bits sampleWorld sampleWorld2)
    as (s & s' & Hs & Hs' & Hsame).
  - vm_compute. lia.
  - vm_compute. lia.
  - rewrite Hs, Hs'. f_equal. apply Hsame. reflexivity.
Defined.

(** The key holds a line feed; the message does not. *)
Lemma validate_message_visible_witness :
  visibleString keyNewline = false
  /\ visibleString (keyTooLongMessage sampleTable keyNewline) = true.
Proof.
  split; [reflexivity|].
  apply (validate_message_visible sampleTable sampleWorld2 (Some newlineMap)
           (errorString (keyTooLongMessage sampleTable keyNewline))).
  reflexivity.
Defined.

(** ** The amended and the strengthened claims on the sample worlds *)

(** The two sample supplies of random bytes agree on the free bits and
    give the same key; a non-empty key is kept. *)
Lemma defaultIdempotencyKey_spec_witness :
  (exists s, defaultIdempotencyKey "" sampleWorld
             = (Done s, set_entropy (drop 16 (entropy sampleWorld)) sampleWorld)
     /\ s = "01020304-0506-4708-890a-0b0c0d0e0f10"
     /\ s ≠ "" /\ len s = 36 /\ isUUIDv4Text s = true
     /\ fst (defaultIdempotencyKey "" sampleWorld2) = Done s)
  /\ defaultIdempotencyKey "abc" sampleWorld = (Done "abc", sampleWorld).
Proof.
  split.
  - destruct (proj1 (defaultIdempotencyKey_spec sampleWorld "") eq_refl)
      as (s & Hrun & Hne & Hlen & Htext & Hbits).
    { vm_compute. lia. }
    exists s. split; [exact Hrun|].
    assert (s = "01020304-0506-4708-890a-0b0c0d0e0f10") as Hs.
    { apply (f_equal fst) in Hrun. cbn [fst] in Hrun.
      symmetry in Hrun. by injection Hrun. }
    split; [exact Hs|]. split; [exact Hne|]. split; [exact Hlen|].
    split; [exact Htext|].
    rewrite Hs. reflexivity.
  - apply (proj2 (defaultIdempotencyKey_spec sampleWorld "abc")). discriminate.
Defined.

(** C7 as it was stated fails on a key that is not plain.  The only
    key of the map holds a line feed; the error is raised, its message
    writes the line feed as [\n] and holds no line feed, so the key
    does not occur in the message as it is. *)
Lemma key_not_in_message_counterexample :
  40 < len keyNewline
  /\ fst (validate sampleTable (Some newlineMap) sampleWorld2)
     = Done (Some (errorString
                     ("metadata key " ++
                      String dquote ("\n" ++ repeatString 40 "n" ++
                      String dquote " exceed 40 characters: 41"))))
  /\ (includes keyNewline
        ("metadata key " ++
         String dquote ("\n" ++ repeatString 40 "n" ++
         String dquote " exceed 40 characters: 41")) -> False).
Proof.
  split; [reflexivity|]. split; [reflexivity|].
  intros (pre & post & Hsplit).
  apply (f_equal visibleString) in Hsplit.
  rewrite !visibleString_app in Hsplit.
  change (visibleString keyNewline) with false in Hsplit.
  rewrite andb_false_l, andb_false_r in Hsplit. discriminate Hsplit.
Qed.
